(** * Verification development for [legalletters/dataset.py]

    A shallow embedding of the synthetic legal-letter generator: the fact
    model, the final-draft composer, the rough-draft noise pipeline, and the
    pieces of the Python standard library they rely on ([textwrap.fill] and
    the [random] module's [random], [randint], [choice] and [sample]), and
    the row builder [make_rows] with the visa counts of [summarize]. *)

From Stdlib Require Import String Ascii ZArith List Lia Bool Permutation.
Import ListNotations.
Open Scope Z_scope.

(* ------------------------------------------------------------------ *)
(** ** Python strings *)

(** A Python [str] is a sequence of code points. *)
Definition ustr := list Z.

(** ASCII literals, read as code points. *)
Definition u (s : string) : ustr :=
  map (fun a => Z.of_nat (nat_of_ascii a)) (list_ascii_of_string s).
Arguments u s%_string.

(** The em dash U+2014 used by [facts_to_string]. *)
Definition EM_DASH : ustr := [8212].

(** [sep.join(xs)]. *)
Fixpoint join (sep : ustr) (xs : list ustr) : ustr :=
  match xs with
  | [] => []
  | [x] => x
  | x :: xs' => x ++ sep ++ join sep xs'
  end.

(** [str(n)] for a Python [int]: decimal digits, with a minus sign when
    negative. *)
Fixpoint uint_digits (d : Decimal.uint) : ustr :=
  match d with
  | Decimal.Nil => []
  | Decimal.D0 d' => 48 :: uint_digits d'
  | Decimal.D1 d' => 49 :: uint_digits d'
  | Decimal.D2 d' => 50 :: uint_digits d'
  | Decimal.D3 d' => 51 :: uint_digits d'
  | Decimal.D4 d' => 52 :: uint_digits d'
  | Decimal.D5 d' => 53 :: uint_digits d'
  | Decimal.D6 d' => 54 :: uint_digits d'
  | Decimal.D7 d' => 55 :: uint_digits d'
  | Decimal.D8 d' => 56 :: uint_digits d'
  | Decimal.D9 d' => 57 :: uint_digits d'
  end.

Definition py_str (n : Z) : ustr :=
  match Z.to_int n with
  | Decimal.Pos d => uint_digits d
  | Decimal.Neg d => 45 :: uint_digits d
  end.

(** [x in s] for strings: substring test. *)
Fixpoint prefixb (p s : ustr) : bool :=
  match p, s with
  | [], _ => true
  | a :: p', b :: s' => (a =? b) && prefixb p' s'
  | _ :: _, [] => false
  end.

Fixpoint substrb (p s : ustr) : bool :=
  prefixb p s || match s with [] => false | _ :: s' => substrb p s' end.

(* ------------------------------------------------------------------ *)
(** ** Character classes of [textwrap] and [re]

    Exact on ASCII.  Outside ASCII, [\w] also holds for Unicode letters and
    digits; this development only feeds ASCII text and the em dash (which
    is not a word character) to them, so non-ASCII code points are read as
    non-word characters.  [str.isspace] is given exactly. *)

(** [textwrap._whitespace = '\t\n\x0b\x0c\r '] *)
Definition tw_ws (c : Z) : bool :=
  ((9 <=? c) && (c <=? 13)) || (c =? 32).

(** [str.isspace], the test behind [chunk.strip() == '']. *)
Definition py_isspace (c : Z) : bool :=
  ((9 <=? c) && (c <=? 13)) || ((28 <=? c) && (c <=? 32)) || (c =? 133) ||
  (c =? 160) || (c =? 5760) || ((8192 <=? c) && (c <=? 8202)) ||
  (c =? 8232) || (c =? 8233) || (c =? 8239) || (c =? 8287) || (c =? 12288).

Definition is_digit (c : Z) : bool := (48 <=? c) && (c <=? 57).

(** [[^\d\W]]: letters and the underscore. *)
Definition is_lt (c : Z) : bool :=
  ((65 <=? c) && (c <=? 90)) || ((97 <=? c) && (c <=? 122)) || (c =? 95).

(** [\w] *)
Definition is_w (c : Z) : bool := is_lt c || is_digit c.

(** [\w], [!], [&], [.], [,], [?] and the two quote characters *)
Definition is_wp (c : Z) : bool :=
  is_w c || (c =? 33) || (c =? 34) || (c =? 39) || (c =? 38) ||
  (c =? 46) || (c =? 44) || (c =? 63).

Definition HYPHEN : Z := 45.

(* ------------------------------------------------------------------ *)
(** ** [textwrap.TextWrapper] with the defaults used by [textwrap.fill] *)

(** [str.expandtabs(8)]: the column restarts after ['\n'] and ['\r']. *)
Fixpoint expandtabs_go (col : Z) (s : ustr) : ustr :=
  match s with
  | [] => []
  | c :: s' =>
      if c =? 9 then
        let k := 8 - col mod 8 in
        repeat 32 (Z.to_nat k) ++ expandtabs_go (col + k) s'
      else if (c =? 10) || (c =? 13) then c :: expandtabs_go 0 s'
      else c :: expandtabs_go (col + 1) s'
  end.

(** [_munge_whitespace]: expand tabs, then turn each of [_whitespace] into
    a space. *)
Definition munge_whitespace (s : ustr) : ustr :=
  map (fun c => if tw_ws c then 32 else c) (expandtabs_go 0 s).

(** [wordsep_re.split], empty pieces dropped.  The splitter reads the text
    one code point at a time; [h] is the text already read (reversed, for
    the look-behinds), [cur] the current chunk (reversed).  A chunk is a
    run of whitespace, an em-dash run [-{2,}] between a word-punctuation
    character and a word character, or a word that ends before whitespace
    or the end, before an em-dash run, or just after a hyphen that joins
    two letters. *)
Inductive cmode := CStart | CWs | CDash | CWord.

(** the rest starts with [-{2,}\w] *)
Fixpoint dashes_then_w (n : nat) (s : ustr) : bool :=
  match s with
  | c :: s' =>
      if c =? HYPHEN then dashes_then_w (S n) s'
      else (2 <=? n)%nat && is_w c
  | [] => false
  end.

(** look-behind [(?<=[^\d\W]{2}-)|(?<=[^\d\W]-[^\d\W]-)] at a hyphen,
    given the reversed text before the hyphen *)
Definition hyphen_behind (h : ustr) : bool :=
  match h with
  | a :: b :: t =>
      (is_lt a && is_lt b) ||
      (is_lt a && (b =? HYPHEN) && match t with c :: _ => is_lt c | [] => false end)
  | _ => false
  end.

(** look-ahead [(?=[^\d\W]-?[^\d\W])] after the hyphen *)
Definition hyphen_ahead (s : ustr) : bool :=
  match s with
  | a :: b :: t =>
      is_lt a &&
      (is_lt b || ((b =? HYPHEN) && match t with c :: _ => is_lt c | [] => false end))
  | _ => false
  end.

(** which alternative of [wordsep_re] starts at [c] *)
Definition start_mode (h : ustr) (c : Z) (s : ustr) : cmode :=
  if tw_ws c then CWs
  else if (c =? HYPHEN) && match h with p :: _ => is_wp p | [] => false end
          && dashes_then_w 1 s then CDash
  else CWord.

(** does the chunk end right after [c]? ([h]: reversed text before [c],
    [cur]: the chunk including [c], [s]: the rest) *)
Definition chunk_ends (m : cmode) (h cur : ustr) (c : Z) (s : ustr) : bool :=
  match m with
  | CStart => true
  | CWs => match s with d :: _ => negb (tw_ws d) | [] => true end
  | CDash => match s with d :: _ => negb (d =? HYPHEN) | [] => true end
  | CWord =>
      ((c =? HYPHEN) && (2 <=? List.length cur)%nat && hyphen_behind h && hyphen_ahead s)
      || match s with d :: _ => tw_ws d | [] => true end
      || (is_wp c && dashes_then_w 0 s)
  end.

Fixpoint split_go (h : ustr) (m : cmode) (cur : ustr) (s : ustr) : list ustr :=
  match s with
  | [] => match cur with [] => [] | _ => [rev cur] end
  | c :: s' =>
      let m' := match m with CStart => start_mode h c s' | _ => m end in
      if chunk_ends m' h (c :: cur) c s'
      then rev (c :: cur) :: split_go (c :: h) CStart [] s'
      else split_go (c :: h) m' (c :: cur) s'
  end.

(** [_split_chunks] *)
Definition split_chunks (text : ustr) : list ustr :=
  split_go [] CStart [] (munge_whitespace text).

(** [chunk.strip() == ''] *)
Definition is_blank (ch : ustr) : bool := forallb py_isspace ch.

Definition ulen (s : ustr) : Z := Z.of_nat (List.length s).

(** the inner [while chunks] loop of [_wrap_chunks]: take the chunks that
    fit *)
Fixpoint take_fitting (width cur_len : Z) (chunks : list ustr)
  : list ustr * Z * list ustr :=
  match chunks with
  | [] => ([], cur_len, [])
  | ch :: rest =>
      if cur_len + ulen ch <=? width then
        let '(line, l, rest') := take_fitting width (cur_len + ulen ch) rest in
        (ch :: line, l, rest')
      else ([], cur_len, chunks)
  end.

(** [chunk.rfind('-', 0, k)] *)
Definition rfind_hyphen (chunk : ustr) (k : Z) : Z :=
  fold_left (fun acc i => if nth i chunk 0 =? HYPHEN then Z.of_nat i else acc)
            (seq 0 (Z.to_nat (Z.min k (ulen chunk)))) (-1).

(** [_handle_long_word] with [break_long_words] and [break_on_hyphens]:
    returns the piece put on the current line and the remainder. *)
Definition handle_long_word (chunk : ustr) (cur_len width : Z) : ustr * ustr :=
  let space_left := if width <? 1 then 1 else width - cur_len in
  let hyphen := rfind_hyphen chunk space_left in
  let end_ :=
    if (ulen chunk >? space_left) && (hyphen >? 0)
       && existsb (fun c => negb (c =? HYPHEN)) (firstn (Z.to_nat hyphen) chunk)
    then hyphen + 1 else space_left in
  (firstn (Z.to_nat end_) chunk, skipn (Z.to_nat end_) chunk).

Definition drop_trailing_blank (line : list ustr) : list ustr :=
  match rev line with
  | last :: _ => if is_blank last then removelast line else line
  | [] => line
  end.

(** the outer loop of [_wrap_chunks] ([initial_indent] and
    [subsequent_indent] empty, [drop_whitespace], no [max_lines]); [fuel]
    bounds the iterations, each of which consumes at least one code point *)
Fixpoint wrap_chunks (fuel : nat) (width : Z) (has_lines : bool)
         (chunks : list ustr) : list ustr :=
  match fuel with
  | O => []
  | S fuel' =>
      match chunks with
      | [] => []
      | first :: others =>
          let chunks1 :=
            if has_lines && is_blank first then others else chunks in
          let '(line, cur_len, rest) := take_fitting width 0 chunks1 in
          let '(line2, rest2) :=
            match rest with
            | ch :: rest' =>
                if ulen ch >? width then
                  let '(piece, remainder) := handle_long_word ch cur_len width in
                  (line ++ [piece], remainder :: rest')
                else (line, rest)
            | [] => (line, rest)
            end in
          let line3 := drop_trailing_blank line2 in
          match line3 with
          | [] => wrap_chunks fuel' width has_lines rest2
          | _ => concat line3 :: wrap_chunks fuel' width true rest2
          end
      end
  end.

(** a bound on the iterations of [wrap_chunks] *)
Definition wrap_measure (chunks : list ustr) : nat :=
  length (concat chunks) + length chunks.

(** [textwrap.wrap(text, width)] *)
Definition wrap (text : ustr) (width : Z) : list ustr :=
  let chunks := split_chunks text in
  wrap_chunks (S (wrap_measure chunks)) width false chunks.

(** [textwrap.fill(text, width)] *)
Definition fill (text : ustr) (width : Z) : ustr :=
  join [10] (wrap text width).

(** [s.split(sep)] for a one-character separator *)
Fixpoint py_split (sep : Z) (s : ustr) : list ustr :=
  match s with
  | [] => [[]]
  | c :: s' =>
      if c =? sep then [] :: py_split sep s'
      else match py_split sep s' with
           | l :: ls => (c :: l) :: ls
           | [] => [[c]]
           end
  end.

(** a line without ['\n'] *)
Definition nonl (l : ustr) : Prop := ~ In 10 l.

(* ------------------------------------------------------------------ *)
(** ** Python values and errors *)

Definition ueqb (a b : ustr) : bool :=
  if list_eq_dec Z.eq_dec a b then true else false.

(** The exceptions the modelled code can raise.  [Diverges] stands for the
    rejection loop of [random.sample] still drawing after its fuel. *)
Inductive pyexc := IndexError | ValueError | Diverges.

(** A Python [float] [fnum / 2 ^ fexp] (every double is one). *)
Record pyfloat := { fnum : Z; fexp : Z }.

(** A state and exception monad over the random source's state. *)
Definition M (St A : Type) : Type := St -> pyexc + (A * St).

Definition ret {St A} (a : A) : M St A := fun s => inr (a, s).

Definition bind {St A B} (m : M St A) (f : A -> M St B) : M St B :=
  fun s => match m s with
           | inl e => inl e
           | inr (a, s') => f a s'
           end.

Definition raise {St A} (e : pyexc) : M St A := fun _ => inl e.

Notation "x <- m ;; k" := (bind m (fun x => k))
  (at level 61, m at next level, right associativity).

(** [xs[i]], with Python's negative indices *)
Definition py_index {A} (xs : list A) (i : Z) : option nat :=
  let n := Z.of_nat (length xs) in
  let j := if i <? 0 then n + i else i in
  if (0 <=? j) && (j <? n) then Some (Z.to_nat j) else None.

Definition py_getitem {St A} (xs : list A) (i : Z) : M St A :=
  match py_index xs i with
  | Some j => match nth_error xs j with Some x => ret x | None => raise IndexError end
  | None => raise IndexError
  end.

Fixpoint list_set {A} (xs : list A) (j : nat) (x : A) : list A :=
  match xs, j with
  | [], _ => []
  | _ :: xs', O => x :: xs'
  | y :: xs', S j' => y :: list_set xs' j' x
  end.

(** [xs[i] = x] *)
Definition py_setitem {St A} (xs : list A) (i : Z) (x : A) : M St (list A) :=
  match py_index xs i with
  | Some j => ret (list_set xs j x)
  | None => raise IndexError
  end.

(** [xs.pop(0)], keeping the list *)
Definition py_pop0 {St A} (xs : list A) : M St (list A) :=
  match xs with
  | [] => raise IndexError
  | _ :: xs' => ret xs'
  end.

(** [xs[:-1]] *)
Definition drop_last {A} (xs : list A) : list A :=
  firstn (length xs - 1) xs.

(* ------------------------------------------------------------------ *)
(** ** The [random] module

    Two primitives of [random.Random]: [random()] returns [k / 2^53] with
    [0 <= k < 2^53] (the generator returns the numerator [k]), and
    [_randbelow(n)] returns an integer of [[0, n)].  Everything else is
    written on top of them as in [random.py]. *)

Class RandomSource (St : Type) := {
  random_ : St -> Z * St;
  randbelow : Z -> St -> Z * St
}.

(** The laws of the primitives. *)
Class RandomSourceOk (St : Type) `{RandomSource St} : Prop := {
  random_range : forall s, 0 <= fst (random_ s) < 2 ^ 53;
  randbelow_range : forall n s, 0 < n -> 0 <= fst (randbelow n s) < n
}.

(** [random() < p] *)
Definition lt_float (k : Z) (p : pyfloat) : bool :=
  k * 2 ^ fexp p <? fnum p * 2 ^ 53.

Definition ceil_log4 (x : Z) : Z := (Z.log2_up x + 1) / 2.

(** How many times [random.sample]'s rejection loop may draw. *)
Definition REDRAW_FUEL : nat := 1000.

Section Random.
Context {St : Type} `{RandomSource St}.

Definition py_random : M St Z := fun s => inr (random_ s).

Definition rand_below (n : Z) : M St Z := fun s => inr (randbelow n s).

Definition random_lt (p : pyfloat) : M St bool :=
  k <- py_random ;; ret (lt_float k p).

(** [randint(a, b)] = [randrange(a, b + 1)] *)
Definition randint (a b : Z) : M St Z :=
  let width := b + 1 - a in
  if 0 <? width then j <- rand_below width ;; ret (a + j)
  else raise ValueError.

(** [choice(seq)] *)
Definition choice {A} (seq : list A) : M St A :=
  match seq with
  | [] => raise IndexError
  | _ => j <- rand_below (Z.of_nat (length seq)) ;; py_getitem seq j
  end.

(** [sample], pool branch: [j = randbelow(n - i); result[i] = pool[j];
    pool[j] = pool[n - i - 1]] *)
Fixpoint sample_pool {A} (n i : Z) (k : nat) (pool : list A) : M St (list A) :=
  match k with
  | O => ret []
  | S k' =>
      j <- rand_below (n - i) ;;
      x <- py_getitem pool j ;;
      y <- py_getitem pool (n - i - 1) ;;
      pool' <- py_setitem pool j y ;;
      rest <- sample_pool n (i + 1) k' pool' ;;
      ret (x :: rest)
  end.

(** [sample], set branch: [j = randbelow(n)] until [j not in selected] *)
Fixpoint redraw (fuel : nat) (n : Z) (selected : list Z) : M St Z :=
  match fuel with
  | O => raise Diverges
  | S fuel' =>
      j <- rand_below n ;;
      if existsb (Z.eqb j) selected then redraw fuel' n selected else ret j
  end.

Fixpoint sample_set {A} (n : Z) (k : nat) (population : list A)
         (selected : list Z) : M St (list A) :=
  match k with
  | O => ret []
  | S k' =>
      j <- redraw REDRAW_FUEL n selected ;;
      x <- py_getitem population j ;;
      rest <- sample_set n k' population (j :: selected) ;;
      ret (x :: rest)
  end.

(** [sample(population, k)]; [_ceil(_log(k * 3, 4))] is computed on
    integers ([3k] is never a power of 4). *)
Definition sample {A} (population : list A) (k : Z) : M St (list A) :=
  let n := Z.of_nat (length population) in
  if negb ((0 <=? k) && (k <=? n)) then raise ValueError
  else
    let setsize := 21 + (if 5 <? k then 4 ^ ceil_log4 (k * 3) else 0) in
    if n <=? setsize then sample_pool n 0 (Z.to_nat k) population
    else sample_set n (Z.to_nat k) population [].

End Random.

(* ------------------------------------------------------------------ *)
(** ** Configuration (the CONFIG block of [dataset.py]) *)

Record config := {
  VISA_TYPES : list ustr;
  FIELDS : list ustr;
  P_OMIT_KEY_FACT : pyfloat;
  P_WRONG_COUNT : pyfloat;
  P_HALLUCINATION : pyfloat;
  P_WEAK_VISA_MENTION : pyfloat;
  P_STYLE_WEAK : pyfloat;
  P_SECTION_MISS : pyfloat;
  PUB_RANGE : Z * Z;
  CITATION_RANGE : Z * Z;
  AWARD_POOL : list ustr;
  VENUE_POOL : list ustr;
  ORG_POOL : list ustr;
  TITLE_POOL : list ustr
}.

Definition default_config : config := {|
  VISA_TYPES := [u"EB-1A"; u"O-1A"; u"NIW"];
  FIELDS := [u"computer vision"; u"computational biology"; u"robotics"; u"NLP";
             u"theoretical CS"; u"HCI"; u"cybersecurity"];
  P_OMIT_KEY_FACT := {| fnum := 5404319552844595; fexp := 54 |};      (* 0.30 *)
  P_WRONG_COUNT := {| fnum := 3602879701896397; fexp := 54 |};        (* 0.20 *)
  P_HALLUCINATION := {| fnum := 1080863910568919; fexp := 53 |};      (* 0.12 *)
  P_WEAK_VISA_MENTION := {| fnum := 1; fexp := 1 |};                  (* 0.50 *)
  P_STYLE_WEAK := {| fnum := 5404319552844595; fexp := 53 |};         (* 0.60 *)
  P_SECTION_MISS := {| fnum := 1; fexp := 2 |};                       (* 0.25 *)
  PUB_RANGE := (8, 80);
  CITATION_RANGE := (200, 5000);
  AWARD_POOL := [u"ACM Best Paper Award"; u"IEEE Fellow"; u"Sloan Fellowship";
                 u"NSF CAREER Award"; u"Turing Award nomination"; u"AAAI Fellow";
                 u"ACL Best Paper Award"; u"NeurIPS Outstanding Paper"; u"ICLR Spotlight"];
  VENUE_POOL := [u"NeurIPS"; u"ICML"; u"CVPR"; u"ACL"; u"EMNLP"; u"KDD"; u"AAAI"; u"ICLR"];
  ORG_POOL := [u"MIT"; u"Stanford"; u"CMU"; u"Berkeley"; u"Google DeepMind";
               u"Microsoft Research"; u"OpenAI"; u"Caltech"];
  TITLE_POOL := [u"Professor"; u"Associate Professor"; u"Research Scientist";
                 u"Principal Scientist"; u"Chair"; u"Director"]
|}.

(** The literal probabilities inside [mk_rough_draft]. *)
Definition P_0_7 : pyfloat := {| fnum := 3152519739159347; fexp := 52 |}.
Definition P_0_5 : pyfloat := {| fnum := 1; fexp := 1 |}.
Definition P_0_08 : pyfloat := {| fnum := 5764607523034235; fexp := 56 |}.
Definition P_0_35 : pyfloat := {| fnum := 3152519739159347; fexp := 53 |}.

(* ------------------------------------------------------------------ *)
(** ** Data model *)

Record Person := {
  full_name : ustr;
  affiliation : ustr;
  title : ustr
}.

Record BeneficiaryFacts := {
  name : ustr;
  field : ustr;
  pubs : Z;
  citations : Z;
  key_awards : list ustr;
  key_venues : list ustr
}.

(* ------------------------------------------------------------------ *)
(** ** Helpers and synthesis of facts *)

Section Synthesis.
Context {St : Type} `{RandomSource St}.
Variable cfg : config.

Definition choice_no_replacement (pool : list ustr) (k : Z) : M St (list ustr) :=
  sample pool (Z.min k (Z.of_nat (length pool))).

Definition mk_beneficiary (i : Z) : M St BeneficiaryFacts :=
  field_ <- choice (FIELDS cfg) ;;
  pubs_ <- randint (fst (PUB_RANGE cfg)) (snd (PUB_RANGE cfg)) ;;
  citations_ <- randint (fst (CITATION_RANGE cfg)) (snd (CITATION_RANGE cfg)) ;;
  ka <- randint 0 2 ;;
  awards <- choice_no_replacement (AWARD_POOL cfg) ka ;;
  kv <- randint 1 3 ;;
  venues <- choice_no_replacement (VENUE_POOL cfg) kv ;;
  ret {| name := u"Dr. Alex " ++ py_str i;
         field := field_;
         pubs := pubs_;
         citations := citations_;
         key_awards := awards;
         key_venues := venues |}.

Definition mk_recommender (i : Z) : M St Person :=
  aff <- choice (ORG_POOL cfg) ;;
  title_ <- choice (TITLE_POOL cfg) ;;
  ret {| full_name := u"Dr. Jordan " ++ py_str i;
         affiliation := aff;
         title := title_ |}.

End Synthesis.

(* ------------------------------------------------------------------ *)
(** ** Rendering and the final draft *)

Definition facts_to_string (b : BeneficiaryFacts) : ustr :=
  let awards := match key_awards b with
                | [] => EM_DASH
                | _ => join (u", ") (key_awards b)
                end in
  let venues := join (u", ") (key_venues b) in
  fill (name b ++ u" works in " ++ field b ++ u". Publications: " ++ py_str (pubs b) ++
        u". " ++
        u"Citations: " ++ py_str (citations b) ++ u". Awards: " ++ awards ++ u". " ++
        u"Key venues: " ++ venues ++ u".") 120.

Definition recommender_to_string (r : Person) : ustr :=
  full_name r ++ u", " ++ title r ++ u", " ++ affiliation r.

Definition legal_intro (visa_type : ustr) (r : Person) (b : BeneficiaryFacts) : ustr :=
  u"I am honored to recommend " ++ name b ++ u" for the " ++ visa_type ++
  u" visa category. " ++
  u"As " ++ title r ++ u" at " ++ affiliation r ++ u", I have closely followed " ++
  name b ++ u"'s work in " ++ field b ++ u".".

Definition legal_evidence (b : BeneficiaryFacts) : ustr :=
  let parts :=
    [name b ++ u" has authored " ++ py_str (pubs b) ++
     u" peer-reviewed publications with approximately " ++ py_str (citations b) ++
     u" citations."] in
  let parts :=
    match key_awards b with
    | [] => parts
    | _ => parts ++ [u"Notably, " ++ name b ++ u" received " ++
                     join (u", ") (key_awards b) ++ u"."]
    end in
  let parts :=
    parts ++ [name b ++ u"'s research appears at " ++ join (u", ") (key_venues b) ++
              u" and is widely recognized in " ++ field b ++ u"."] in
  join (u" ") parts.

Definition legal_closing (b : BeneficiaryFacts) : ustr :=
  u"In summary, " ++ name b ++ u" demonstrates sustained national and international acclaim. " ++
  u"I strongly endorse this petition and am available for any additional information.".

Definition mk_final_draft (visa_type : ustr) (r : Person) (b : BeneficiaryFacts) : ustr :=
  let paragraphs := [legal_intro visa_type r b; legal_evidence b; legal_closing b] in
  join [10; 10] (map (fun p => fill p 110) paragraphs).

(* ------------------------------------------------------------------ *)
(** ** The rough draft *)

Definition FAKE_AWARDS : list ustr :=
  [u"Best Innovator 2022"; u"Global Genius Prize"; u"World AI Medal"].

Definition STYLE_FILLER : ustr :=
  u"I am pleased to write this letter. It is my pleasure to write this letter.".

Definition PASSIVE_FILLER : ustr :=
  u" Their contributions have been considered impactful by many, in ways that are thought to be significant.".

Section Rough.
Context {St : Type} `{RandomSource St}.
Variable cfg : config.

(** [chunks[i] += suffix] *)
Definition py_iadd_item (chunks : list ustr) (i : Z) (suffix : ustr) : M St (list ustr) :=
  c <- py_getitem chunks i ;; py_setitem chunks i (c ++ suffix).

Definition maybe_wrong_count (true_val : Z) : M St Z :=
  delta <- randint 5 20 ;;
  sgn <- choice [- delta; delta] ;;
  ret (Z.max 1 (true_val + sgn)).

Definition mk_rough_draft (visa_type : ustr) (r : Person) (b : BeneficiaryFacts)
  : M St ustr :=
  let intro := u"I am writing to recommend " ++ name b ++ u". " ++ name b ++
               u" is a talented researcher in " ++ field b ++ u"." in
  let evidence := u"They have many publications and their work is known at venues like " ++
                  join (u", ") (key_venues b) ++ u"." in
  let closing := u"I believe they are qualified for the visa." in
  let chunks := [intro; evidence; closing] in
  (* 1. visa mention *)
  weak <- random_lt (P_WEAK_VISA_MENTION cfg) ;;
  chunks <- py_setitem chunks (-1)
              (if weak then u"I believe they are highly qualified."
               else u"I believe they are qualified for the " ++ visa_type ++ u" visa.") ;;
  (* 2. key-fact omission *)
  omit <- random_lt (P_OMIT_KEY_FACT cfg) ;;
  chunks <- (if omit then
               drop_awards <- (match key_awards b with
                               | [] => ret false
                               | _ => random_lt P_0_7
                               end) ;;
               let evidence :=
                 if drop_awards
                 then u"They have many publications and are recognized in their field."
                 else u"Their work is recognized at top venues." in
               py_setitem chunks 1 evidence
             else ret chunks) ;;
  (* 3. count corruption *)
  wrong <- random_lt (P_WRONG_COUNT cfg) ;;
  count <- (if wrong then maybe_wrong_count (pubs b) else ret (pubs b)) ;;
  chunks <- py_iadd_item chunks 1 (u" They have around " ++ py_str count ++ u" publications.") ;;
  (* 4. hallucination *)
  halluc <- random_lt (P_HALLUCINATION cfg) ;;
  chunks <- (if halluc then
               fake_award <- choice FAKE_AWARDS ;;
               py_iadd_item chunks 1 (u" They also received the " ++ fake_award ++ u".")
             else ret chunks) ;;
  (* 5. style *)
  style <- random_lt (P_STYLE_WEAK cfg) ;;
  let chunks := if style then STYLE_FILLER :: chunks else chunks in
  (* 6. section omission *)
  miss <- random_lt (P_SECTION_MISS cfg) ;;
  chunks <- (if miss then
               coin <- random_lt P_0_5 ;;
               if coin && (2 <? Z.of_nat (length chunks))%Z
               then py_pop0 chunks
               else ret (drop_last chunks)
             else ret chunks) ;;
  (* 7. visa misnaming *)
  misname <- random_lt P_0_08 ;;
  chunks <- (if misname then
               wrong_visa <- choice (filter (fun v => negb (ueqb v visa_type)) (VISA_TYPES cfg)) ;;
               py_setitem chunks (-1)
                 (u"I believe they are qualified for the " ++ wrong_visa ++ u" visa.")
             else ret chunks) ;;
  let body := join (u" ") chunks in
  (* 8. passive-voice filler *)
  passive <- random_lt P_0_35 ;;
  let body := if passive then body ++ PASSIVE_FILLER else body in
  ret (fill body 110).

(** The same function cut at its gates: each step takes the list of chunks
    and returns the new one.  [mk_rough_draft_steps] below shows that their
    composition is [mk_rough_draft]. *)

Definition rough_chunks (b : BeneficiaryFacts) : list ustr :=
  [u"I am writing to recommend " ++ name b ++ u". " ++ name b ++
   u" is a talented researcher in " ++ field b ++ u".";
   u"They have many publications and their work is known at venues like " ++
   join (u", ") (key_venues b) ++ u".";
   u"I believe they are qualified for the visa."].

(** lines 136-140 *)
Definition step_visa_mention (visa_type : ustr) (chunks : list ustr) : M St (list ustr) :=
  weak <- random_lt (P_WEAK_VISA_MENTION cfg) ;;
  py_setitem chunks (-1)
    (if weak then u"I believe they are highly qualified."
     else u"I believe they are qualified for the " ++ visa_type ++ u" visa.").

(** lines 142-149 *)
Definition step_omit (b : BeneficiaryFacts) (chunks : list ustr) : M St (list ustr) :=
  omit <- random_lt (P_OMIT_KEY_FACT cfg) ;;
  if omit then
    drop_awards <- (match key_awards b with
                    | [] => ret false
                    | _ => random_lt P_0_7
                    end) ;;
    let evidence :=
      if drop_awards
      then u"They have many publications and are recognized in their field."
      else u"Their work is recognized at top venues." in
    py_setitem chunks 1 evidence
  else ret chunks.

(** lines 151-155 *)
Definition step_count (b : BeneficiaryFacts) (chunks : list ustr) : M St (list ustr) :=
  wrong <- random_lt (P_WRONG_COUNT cfg) ;;
  count <- (if wrong then maybe_wrong_count (pubs b) else ret (pubs b)) ;;
  py_iadd_item chunks 1 (u" They have around " ++ py_str count ++ u" publications.").

(** lines 157-159 *)
Definition step_hallucination (chunks : list ustr) : M St (list ustr) :=
  halluc <- random_lt (P_HALLUCINATION cfg) ;;
  if halluc then
    fake_award <- choice FAKE_AWARDS ;;
    py_iadd_item chunks 1 (u" They also received the " ++ fake_award ++ u".")
  else ret chunks.

(** lines 161-162 *)
Definition step_style (chunks : list ustr) : M St (list ustr) :=
  style <- random_lt (P_STYLE_WEAK cfg) ;;
  ret (if style then STYLE_FILLER :: chunks else chunks).

(** lines 163-168 *)
Definition step_section (chunks : list ustr) : M St (list ustr) :=
  miss <- random_lt (P_SECTION_MISS cfg) ;;
  if miss then
    coin <- random_lt P_0_5 ;;
    if coin && (2 <? Z.of_nat (length chunks))%Z
    then py_pop0 chunks
    else ret (drop_last chunks)
  else ret chunks.

(** lines 171-173 *)
Definition step_misname (visa_type : ustr) (chunks : list ustr) : M St (list ustr) :=
  misname <- random_lt P_0_08 ;;
  if misname then
    wrong_visa <- choice (filter (fun v => negb (ueqb v visa_type)) (VISA_TYPES cfg)) ;;
    py_setitem chunks (-1)
      (u"I believe they are qualified for the " ++ wrong_visa ++ u" visa.")
  else ret chunks.

(** lines 175-180 *)
Definition step_finish (chunks : list ustr) : M St ustr :=
  let body := join (u" ") chunks in
  passive <- random_lt P_0_35 ;;
  let body := if passive then body ++ PASSIVE_FILLER else body in
  ret (fill body 110).

Definition rough_steps (visa_type : ustr) (b : BeneficiaryFacts) : M St ustr :=
  c <- step_visa_mention visa_type (rough_chunks b) ;;
  c <- step_omit b c ;;
  c <- step_count b c ;;
  c <- step_hallucination c ;;
  c <- step_style c ;;
  c <- step_section c ;;
  c <- step_misname visa_type c ;;
  step_finish c.

End Rough.

(* ------------------------------------------------------------------ *)
(** ** [Record], [build_strings] and [make_rows] *)

(** [Record] ([Record] is a keyword here) *)
Record Record_ := {
  case_id : ustr;
  visa_type : ustr;
  beneficiary_data : ustr;
  recommender_data : ustr;
  rough_draft : ustr;
  final_draft : ustr
}.

Section Rows.
Context {St : Type} `{RandomSource St}.
Variable cfg : config.

Definition build_strings (visa_type : ustr) (r : Person) (b : BeneficiaryFacts)
  : M St (ustr * ustr * ustr * ustr) :=
  let beneficiary_str := facts_to_string b in
  let recommender_str := recommender_to_string r in
  rough <- mk_rough_draft cfg visa_type r b ;;
  let final := mk_final_draft visa_type r b in
  ret (beneficiary_str, recommender_str, rough, final).

(** the loop [for i in range(1, n_rows + 1)], with [k] iterations left *)
Fixpoint make_rows_loop (k : nat) (i : Z) (rows : list Record_) : M St (list Record_) :=
  match k with
  | O => ret rows
  | S k' =>
      visa <- choice (VISA_TYPES cfg) ;;
      b <- mk_beneficiary cfg i ;;
      r <- mk_recommender cfg i ;;
      strs <- build_strings visa r b ;;
      let '(beneficiary_str, recommender_str, rough, final) := strs in
      make_rows_loop k' (i + 1)
        (rows ++ [{| case_id := u"case_" ++ py_str i;
                     visa_type := visa;
                     beneficiary_data := beneficiary_str;
                     recommender_data := recommender_str;
                     rough_draft := rough;
                     final_draft := final |}])
  end.

(** [range(1, n_rows + 1)] has [max 0 n_rows] elements. *)
Definition make_rows (n_rows : Z) : M St (list Record_) :=
  make_rows_loop (Z.to_nat n_rows) 1 [].

End Rows.

(** The dict [vis_counts] of [summarize], as its list of items in insertion
    order. *)

(** [d.get(k, default)] *)
Fixpoint dict_get (d : list (ustr * Z)) (k : ustr) (default : Z) : Z :=
  match d with
  | [] => default
  | (k', v) :: d' => if ueqb k' k then v else dict_get d' k default
  end.

(** [d[k] = v]: a key already there keeps its place, a new one goes last *)
Fixpoint dict_set (d : list (ustr * Z)) (k : ustr) (v : Z) : list (ustr * Z) :=
  match d with
  | [] => [(k, v)]
  | (k', v') :: d' => if ueqb k' k then (k', v) :: d' else (k', v') :: dict_set d' k v
  end.

(** lines 221-223 of [summarize] *)
Definition vis_counts (rows : list Record_) : list (ustr * Z) :=
  fold_left (fun d r => dict_set d (visa_type r) (dict_get d (visa_type r) 0 + 1)) rows [].

(** [sum(d.values())] *)
Definition dict_sum (d : list (ustr * Z)) : Z := fold_right Z.add 0 (map snd d).

(** [sum(1 for r in rows if r.visa_type == k)] *)
Definition count_visa (rows : list Record_) (k : ustr) : nat :=
  length (filter (fun r => ueqb (visa_type r) k) rows).

(** [list(dict.fromkeys(xs))]: the distinct items of [xs], each at its first
    position ([seen]: the items already kept) *)
Fixpoint first_occurrences_go (seen : list ustr) (xs : list ustr) : list ustr :=
  match xs with
  | [] => []
  | x :: xs' =>
      if existsb (fun k => ueqb k x) seen then first_occurrences_go seen xs'
      else x :: first_occurrences_go (x :: seen) xs'
  end.

Definition first_occurrences (xs : list ustr) : list ustr := first_occurrences_go [] xs.

(** [m] raises nothing, from any state, and its result satisfies [Q] *)
Definition succeeds {St A} (m : M St A) (Q : A -> Prop) : Prop :=
  forall s, exists a s', m s = inr (a, s') /\ Q a.


(* ------------------------------------------------------------------ *)
(** ** A scripted random source

    The state lists the values the next draws return; [random()] reads its
    numerator and [_randbelow(n)] its remainder modulo [n].  It serves to
    run the program on chosen outcomes of the random gates. *)

Record script := Script { draws : list Z }.

#[export] Instance script_source : RandomSource script := {
  random_ s := match draws s with
               | [] => (0, Script [])
               | k :: ks => (k mod 2 ^ 53, Script ks)
               end;
  randbelow n s := match draws s with
                   | [] => (0, Script [])
                   | k :: ks => (k mod n, Script ks)
                   end
}.

(** a [random()] draw below every positive probability, and one above
    every probability below 1 *)
Definition FIRE : Z := 0.
Definition PASS : Z := 2 ^ 53 - 1.

(** A source that records every [random()] value it returns, most recent
    first; [_randbelow] draws are not recorded. *)
#[export] Instance logged_source {St} {HR : RandomSource St} : RandomSource (St * list Z) := {
  random_ sl := let '(k, s') := random_ (fst sl) in (k, (s', k :: snd sl));
  randbelow n sl := let '(j, s') := randbelow n (fst sl) in (j, (s', snd sl))
}.

(** the probability [1.0] *)
Definition P_1_0 : pyfloat := {| fnum := 1; fexp := 0 |}.

(** [default_config] with [P_SECTION_MISS = 1.0] *)
Definition section_miss_config : config := {|
  VISA_TYPES := VISA_TYPES default_config; FIELDS := FIELDS default_config;
  P_OMIT_KEY_FACT := P_OMIT_KEY_FACT default_config;
  P_WRONG_COUNT := P_WRONG_COUNT default_config;
  P_HALLUCINATION := P_HALLUCINATION default_config;
  P_WEAK_VISA_MENTION := P_WEAK_VISA_MENTION default_config;
  P_STYLE_WEAK := P_STYLE_WEAK default_config;
  P_SECTION_MISS := P_1_0;
  PUB_RANGE := PUB_RANGE default_config; CITATION_RANGE := CITATION_RANGE default_config;
  AWARD_POOL := AWARD_POOL default_config; VENUE_POOL := VENUE_POOL default_config;
  ORG_POOL := ORG_POOL default_config; TITLE_POOL := TITLE_POOL default_config |}.

Definition example_facts : BeneficiaryFacts := {|
  name := u"Dr. Alex 1"; field := u"NLP"; pubs := 22; citations := 1400;
  key_awards := [u"ACM Best Paper Award"]; key_venues := [u"ACL"; u"EMNLP"] |}.

Definition example_recommender : Person := {|
  full_name := u"Dr. Jordan 1"; affiliation := u"MIT"; title := u"Professor" |}.

(* ------------------------------------------------------------------ *)
(** ** Observations on text *)

(** the text with every [str.isspace] code point removed *)
Definition strip_ws (s : ustr) : ustr := filter (fun c => negb (py_isspace c)) s.

(** [p in s] *)
Definition substr (p s : ustr) : Prop := exists a b, s = a ++ p ++ b.

(* ------------------------------------------------------------------ *)
(** ** Inputs used in the statements below *)

(** a beneficiary whose third award is long enough for the wrap at 110
    columns to break it across two lines *)
Definition long_award_facts : BeneficiaryFacts := {|
  name := u"Dr. Alex 1"; field := u"NLP"; pubs := 8; citations := 200;
  key_awards := [u"ACM Best Paper Award"; u"Turing Award nomination";
                 u"Presidential Early Career Award for Scientists and Engineers"];
  key_venues := [u"ACL"; u"EMNLP"] |}.

(** the configuration with an empty [VENUE_POOL] *)
Definition empty_venue_config : config := {|
  VISA_TYPES := VISA_TYPES default_config; FIELDS := FIELDS default_config;
  P_OMIT_KEY_FACT := P_OMIT_KEY_FACT default_config;
  P_WRONG_COUNT := P_WRONG_COUNT default_config;
  P_HALLUCINATION := P_HALLUCINATION default_config;
  P_WEAK_VISA_MENTION := P_WEAK_VISA_MENTION default_config;
  P_STYLE_WEAK := P_STYLE_WEAK default_config;
  P_SECTION_MISS := P_SECTION_MISS default_config;
  PUB_RANGE := PUB_RANGE default_config; CITATION_RANGE := CITATION_RANGE default_config;
  AWARD_POOL := AWARD_POOL default_config; VENUE_POOL := [];
  ORG_POOL := ORG_POOL default_config; TITLE_POOL := TITLE_POOL default_config |}.

(** draws for [mk_beneficiary]: field 3, publications [8 + 14], citations
    [200 + 1200], 2 awards, 3 venues; and the record they give *)
Definition sampled_script : script := Script [3; 14; 1200; 2; 1; 3; 2; 5; 7; 9].

Definition sampled_facts : BeneficiaryFacts := {|
  name := u"Dr. Alex 1"; field := u"NLP"; pubs := 22; citations := 1400;
  key_awards := [u"IEEE Fellow"; u"NSF CAREER Award"];
  key_venues := [u"KDD"; u"NeurIPS"; u"ACL"] |}.

(** Draws of one run of [mk_rough_draft], gate by gate: visa mention,
    omission, count, hallucination, style, section miss, section coin,
    misname (with [_randbelow] for the wrong visa when it fires), passive
    filler.  Here the coin drops the closing and the misname gate fires. *)
Definition misname_script : script :=
  Script [PASS; PASS; PASS; PASS; PASS; FIRE; PASS; FIRE; 0; PASS].

(** The same, with the misname gate passing. *)
Definition drop_closing_script : script :=
  Script [PASS; PASS; PASS; PASS; PASS; FIRE; PASS; PASS; PASS].

(** the rough draft of [drop_closing_script] under [section_miss_config] *)
Definition drop_closing_draft : ustr :=
  Eval vm_compute in
  match mk_rough_draft section_miss_config (u"EB-1A") example_recommender example_facts
          (drop_closing_script, []) with
  | inr (d, _) => d
  | inl _ => []
  end.

(** the rough draft of [misname_script] under [section_miss_config] *)
Definition misname_draft : ustr :=
  Eval vm_compute in
  match mk_rough_draft section_miss_config (u"EB-1A") example_recommender example_facts
          (misname_script, []) with
  | inr (d, _) => d
  | inl _ => []
  end.


(** The style gate, the section gate and its coin all fire: [pop(0)] runs
    on a list whose head is [STYLE_FILLER]. *)
Definition filler_pop_script : script :=
  Script [PASS; PASS; PASS; PASS; FIRE; FIRE; FIRE; PASS; PASS].

(** The count gate fires; [randint(5, 20)] returns 5 and [choice] the
    second sign. *)
Definition count_fire_script : script := Script [FIRE; 0; 1].

(** the chunks after the count step of that run *)
Definition count_fired_chunks : list ustr :=
  Eval vm_compute in
  match step_count default_config example_facts (rough_chunks example_facts) count_fire_script with
  | inr (c, _) => c
  | inl _ => []
  end.

Definition no_award_facts : BeneficiaryFacts := {|
  name := u"Dr. Alex 2"; field := u"robotics"; pubs := 8; citations := 200;
  key_awards := []; key_venues := [u"ICML"] |}.

(** [example_facts] with other awards *)
Definition other_awards_facts : BeneficiaryFacts := {|
  name := u"Dr. Alex 1"; field := u"NLP"; pubs := 22; citations := 1400;
  key_awards := [u"IEEE Fellow"; u"Sloan Fellowship"]; key_venues := [u"ACL"; u"EMNLP"] |}.

(** a venue spelled like an entry of the award pool *)
Definition award_venue_facts : BeneficiaryFacts := {|
  name := u"Dr. Alex 1"; field := u"NLP"; pubs := 22; citations := 1400;
  key_awards := []; key_venues := [u"ICLR Spotlight"] |}.

(** a recommender who bears the beneficiary's name *)
Definition namesake_recommender : Person := {|
  full_name := u"Dr. Alex 1"; affiliation := u"MIT"; title := u"Professor" |}.

(** [default_config] with only one visa category *)
Definition single_visa_config : config := {|
  VISA_TYPES := [u"EB-1A"]; FIELDS := FIELDS default_config;
  P_OMIT_KEY_FACT := P_OMIT_KEY_FACT default_config;
  P_WRONG_COUNT := P_WRONG_COUNT default_config;
  P_HALLUCINATION := P_HALLUCINATION default_config;
  P_WEAK_VISA_MENTION := P_WEAK_VISA_MENTION default_config;
  P_STYLE_WEAK := P_STYLE_WEAK default_config;
  P_SECTION_MISS := P_SECTION_MISS default_config;
  PUB_RANGE := PUB_RANGE default_config; CITATION_RANGE := CITATION_RANGE default_config;
  AWARD_POOL := AWARD_POOL default_config; VENUE_POOL := VENUE_POOL default_config;
  ORG_POOL := ORG_POOL default_config; TITLE_POOL := TITLE_POOL default_config |}.

(** [default_config] with an empty [FIELDS] *)
Definition no_fields_config : config := {|
  VISA_TYPES := VISA_TYPES default_config; FIELDS := [];
  P_OMIT_KEY_FACT := P_OMIT_KEY_FACT default_config;
  P_WRONG_COUNT := P_WRONG_COUNT default_config;
  P_HALLUCINATION := P_HALLUCINATION default_config;
  P_WEAK_VISA_MENTION := P_WEAK_VISA_MENTION default_config;
  P_STYLE_WEAK := P_STYLE_WEAK default_config;
  P_SECTION_MISS := P_SECTION_MISS default_config;
  PUB_RANGE := PUB_RANGE default_config; CITATION_RANGE := CITATION_RANGE default_config;
  AWARD_POOL := AWARD_POOL default_config; VENUE_POOL := VENUE_POOL default_config;
  ORG_POOL := ORG_POOL default_config; TITLE_POOL := TITLE_POOL default_config |}.

(** [default_config] with [PUB_RANGE = (80, 8)] *)
Definition reversed_pubs_config : config := {|
  VISA_TYPES := VISA_TYPES default_config; FIELDS := FIELDS default_config;
  P_OMIT_KEY_FACT := P_OMIT_KEY_FACT default_config;
  P_WRONG_COUNT := P_WRONG_COUNT default_config;
  P_HALLUCINATION := P_HALLUCINATION default_config;
  P_WEAK_VISA_MENTION := P_WEAK_VISA_MENTION default_config;
  P_STYLE_WEAK := P_STYLE_WEAK default_config;
  P_SECTION_MISS := P_SECTION_MISS default_config;
  PUB_RANGE := (80, 8); CITATION_RANGE := CITATION_RANGE default_config;
  AWARD_POOL := AWARD_POOL default_config; VENUE_POOL := VENUE_POOL default_config;
  ORG_POOL := ORG_POOL default_config; TITLE_POOL := TITLE_POOL default_config |}.

(** [default_config] with an empty [TITLE_POOL] *)
Definition no_titles_config : config := {|
  VISA_TYPES := VISA_TYPES default_config; FIELDS := FIELDS default_config;
  P_OMIT_KEY_FACT := P_OMIT_KEY_FACT default_config;
  P_WRONG_COUNT := P_WRONG_COUNT default_config;
  P_HALLUCINATION := P_HALLUCINATION default_config;
  P_WEAK_VISA_MENTION := P_WEAK_VISA_MENTION default_config;
  P_STYLE_WEAK := P_STYLE_WEAK default_config;
  P_SECTION_MISS := P_SECTION_MISS default_config;
  PUB_RANGE := PUB_RANGE default_config; CITATION_RANGE := CITATION_RANGE default_config;
  AWARD_POOL := AWARD_POOL default_config; VENUE_POOL := VENUE_POOL default_config;
  ORG_POOL := ORG_POOL default_config; TITLE_POOL := [] |}.

(* ------------------------------------------------------------------ *)
(** ** Runs on related states

    Two states of two random sources are related by [R] when their
    primitives return the same values and lead to related states; runs
    from related states return the same value (or the same error). *)

Section Related.
Context {S1 S2 : Type} {H1 : RandomSource S1} {H2 : RandomSource S2}.
Variable R : S1 -> S2 -> Prop.

Definition rel_res {A} (x : pyexc + A * S1) (y : pyexc + A * S2) : Prop :=
  match x, y with
  | inl e1, inl e2 => e1 = e2
  | inr (a1, t1), inr (a2, t2) => a1 = a2 /\ R t1 t2
  | _, _ => False
  end.

Definition rel_M {A} (m1 : M S1 A) (m2 : M S2 A) : Prop :=
  forall s1 s2, R s1 s2 -> rel_res (m1 s1) (m2 s2).
End Related.


(* ================================================================== *)
(** * Lemmas *)

(** ** Substrings *)

Lemma prefixb_spec p s : prefixb p s = true <-> exists b, s = p ++ b.
Proof.
  revert s; induction p as [|a p IH]; intros s; simpl.
  - split; eauto.
  - destruct s as [|c s].
    + split; [discriminate | intros [b Hb]; discriminate].
    + rewrite andb_true_iff, Z.eqb_eq, IH. split.
      * intros [-> [b ->]]; eauto.
      * intros [b Hb]; injection Hb as -> ->; eauto.
Qed.

Lemma substrb_spec p s : substrb p s = true <-> substr p s.
Proof.
  unfold substr; induction s as [|c s IH]; simpl; rewrite orb_true_iff, prefixb_spec.
  - split.
    + intros [[b Hb]|H]; [exists [], b; exact Hb|discriminate].
    + intros [a [b Hb]]. left. destruct a; [exists b; exact Hb|discriminate].
  - rewrite IH. split.
    + intros [[b Hb]|[a [b Hb]]].
      * exists [], b; exact Hb.
      * exists (c :: a), b; rewrite Hb; reflexivity.
    + intros [a [b Hb]]. destruct a as [|d a].
      * left; exists b; exact Hb.
      * right; injection Hb as -> Hb; eauto.
Qed.

Lemma substr_app_l p a b : substr p a -> substr p (a ++ b).
Proof. intros [x [y ->]]. exists x, (y ++ b). rewrite <- !app_assoc; reflexivity. Qed.

Lemma substr_app_r p a b : substr p b -> substr p (a ++ b).
Proof. intros [x [y ->]]. exists (a ++ x), y. rewrite <- !app_assoc; reflexivity. Qed.

Lemma substr_refl p : substr p p.
Proof. exists [], []. rewrite app_nil_r; reflexivity. Qed.

(** ** Whitespace *)

Lemma strip_ws_app a b : strip_ws (a ++ b) = strip_ws a ++ strip_ws b.
Proof. apply filter_app. Qed.

Lemma strip_ws_concat xs : strip_ws (concat xs) = concat (map strip_ws xs).
Proof.
  induction xs as [|x xs IH]; simpl; [reflexivity|].
  rewrite strip_ws_app, IH; reflexivity.
Qed.

Lemma strip_ws_substr p s : substr p s -> substr (strip_ws p) (strip_ws s).
Proof.
  intros [a [b ->]]. exists (strip_ws a), (strip_ws b).
  rewrite !strip_ws_app; reflexivity.
Qed.

Lemma strip_ws_repeat_space n : strip_ws (repeat 32 n) = [].
Proof. induction n; simpl; auto. Qed.

Lemma strip_expandtabs col s : strip_ws (expandtabs_go col s) = strip_ws s.
Proof.
  revert col; induction s as [|c s IH]; intros col; simpl; [reflexivity|].
  destruct (c =? 9) eqn:E9.
  - apply Z.eqb_eq in E9; subst c.
    rewrite strip_ws_app, strip_ws_repeat_space, IH; reflexivity.
  - destruct ((c =? 10) || (c =? 13)); simpl; rewrite IH; reflexivity.
Qed.

Lemma strip_munge s : strip_ws (munge_whitespace s) = strip_ws s.
Proof.
  unfold munge_whitespace. rewrite <- (strip_expandtabs 0 s).
  generalize (expandtabs_go 0 s) as t. induction t as [|c t IH]; simpl; [reflexivity|].
  destruct (tw_ws c) eqn:E.
  - unfold tw_ws in E. simpl.
    assert (Hc : py_isspace c = true).
    { unfold py_isspace. apply orb_true_iff in E as [E|E].
      + rewrite E; reflexivity.
      + apply Z.eqb_eq in E; subst; reflexivity. }
    rewrite Hc; simpl; exact IH.
  - destruct (negb (py_isspace c)); simpl; rewrite IH; reflexivity.
Qed.

Lemma concat_split_go h m cur s : concat (split_go h m cur s) = rev cur ++ s.
Proof.
  revert h m cur; induction s as [|c s IH]; intros h m cur; simpl.
  - destruct cur; simpl; [reflexivity|]. rewrite !app_nil_r; reflexivity.
  - destruct (chunk_ends _ _ _ _ _); simpl; rewrite IH; simpl;
      rewrite <- app_assoc; reflexivity.
Qed.

Lemma concat_split_chunks t : concat (split_chunks t) = munge_whitespace t.
Proof. unfold split_chunks. rewrite concat_split_go; reflexivity. Qed.

Lemma take_fitting_app w c chunks line l rest :
  take_fitting w c chunks = (line, l, rest) -> line ++ rest = chunks.
Proof.
  revert c line l rest; induction chunks as [|ch chunks IH]; intros c line l rest H; simpl in H.
  - injection H as <- _ <-; reflexivity.
  - destruct (c + ulen ch <=? w).
    + destruct (take_fitting w (c + ulen ch) chunks) as [[line' l'] rest'] eqn:E.
      injection H as <- _ <-. simpl. f_equal. eapply IH; exact E.
    + injection H as <- _ <-; reflexivity.
Qed.

Lemma take_fitting_nil w ch chunks l rest :
  take_fitting w 0 (ch :: chunks) = ([], l, rest) ->
  w < ulen ch /\ l = 0 /\ rest = ch :: chunks.
Proof.
  simpl. destruct (ulen ch <=? w) eqn:E.
  - destruct (take_fitting _ _ _) as [[? ?] ?]; intros H; discriminate.
  - intros H; injection H as <- <-. apply Z.leb_gt in E. split; [lia|auto].
Qed.

Lemma handle_long_word_app ch c w :
  fst (handle_long_word ch c w) ++ snd (handle_long_word ch c w) = ch.
Proof. unfold handle_long_word; simpl. apply firstn_skipn. Qed.

Lemma handle_long_word_shorter ch c w :
  (length (snd (handle_long_word ch c w)) <= length ch)%nat.
Proof. unfold handle_long_word; simpl. rewrite length_skipn. lia. Qed.

Lemma handle_long_word_progress ch w :
  1 <= w -> w < ulen ch ->
  (length (snd (handle_long_word ch 0 w)) < length ch)%nat.
Proof.
  intros Hw Hlen. unfold handle_long_word, ulen in *; simpl.
  rewrite length_skipn.
  destruct (w <? 1) eqn:E1; [apply Z.ltb_lt in E1; lia|].
  destruct (_ && _ && _) eqn:E.
  - apply andb_true_iff in E as [E _]. apply andb_true_iff in E as [_ E].
    apply Z.gtb_lt in E. lia.
  - lia.
Qed.

Lemma strip_blank x : is_blank x = true -> strip_ws x = [].
Proof.
  unfold is_blank. induction x as [|c x IH]; simpl; [reflexivity|].
  intros B. apply andb_true_iff in B as [B1 B2]. rewrite B1; simpl; auto.
Qed.

Lemma strip_drop_trailing_blank line :
  strip_ws (concat (drop_trailing_blank line)) = strip_ws (concat line).
Proof.
  unfold drop_trailing_blank.
  destruct (rev line) as [|x r] eqn:E; [reflexivity|].
  destruct (is_blank x) eqn:B; [|reflexivity].
  assert (Hl : line = rev r ++ [x]).
  { rewrite <- (rev_involutive line), E; reflexivity. }
  rewrite Hl, removelast_last, concat_app, strip_ws_app. simpl.
  rewrite app_nil_r, (strip_blank x B), app_nil_r; reflexivity.
Qed.

Lemma strip_join_nl xs : strip_ws (join [10] xs) = strip_ws (concat xs).
Proof.
  induction xs as [|x xs IH]; [reflexivity|].
  destruct xs as [|y ys].
  - simpl. rewrite app_nil_r; reflexivity.
  - change (join [10] (x :: y :: ys)) with (x ++ [10] ++ join [10] (y :: ys)).
    change (concat (x :: y :: ys)) with (x ++ concat (y :: ys)).
    rewrite !strip_ws_app, IH. reflexivity.
Qed.

Lemma wrap_measure_cons x xs :
  wrap_measure (x :: xs) = (length x + 1 + wrap_measure xs)%nat.
Proof. unfold wrap_measure; simpl. rewrite length_app. lia. Qed.

Lemma wrap_measure_app xs ys :
  wrap_measure (xs ++ ys) = (wrap_measure xs + wrap_measure ys)%nat.
Proof. unfold wrap_measure. rewrite concat_app, !length_app. lia. Qed.

(** [_wrap_chunks] only drops and inserts whitespace. *)
Lemma strip_wrap_chunks fuel w b chunks :
  1 <= w -> (wrap_measure chunks < fuel)%nat ->
  strip_ws (concat (wrap_chunks fuel w b chunks)) = strip_ws (concat chunks).
Proof.
  intros Hw. revert b chunks. induction fuel as [|fuel IH]; intros b chunks Hm; [lia|].
  destruct chunks as [|first others]; [reflexivity|].
  assert (Hstep : forall b' L2 R2,
    strip_ws (concat L2) ++ strip_ws (concat R2) = strip_ws (concat (first :: others)) ->
    (wrap_measure R2 < wrap_measure (first :: others))%nat ->
    strip_ws (concat (match drop_trailing_blank L2 with
                      | [] => wrap_chunks fuel w b' R2
                      | _ => concat (drop_trailing_blank L2) :: wrap_chunks fuel w true R2
                      end)) = strip_ws (concat (first :: others))).
  { intros b' L2 R2 Hs Hr. rewrite <- Hs, <- (strip_drop_trailing_blank L2).
    destruct (drop_trailing_blank L2) as [|x xs] eqn:Hd.
    - rewrite IH by lia. reflexivity.
    - cbn [concat]. rewrite strip_ws_app, IH by lia. reflexivity. }
  set (chunks1 := if b && is_blank first then others else first :: others).
  assert (H1 : strip_ws (concat chunks1) = strip_ws (concat (first :: others))
               /\ (chunks1 = first :: others
                   \/ (wrap_measure chunks1 < wrap_measure (first :: others))%nat)).
  { unfold chunks1. destruct (b && is_blank first) eqn:E; [|auto].
    apply andb_true_iff in E as [_ E]. split.
    - cbn [concat]. rewrite strip_ws_app, (strip_blank first E); reflexivity.
    - right. rewrite wrap_measure_cons. lia. }
  destruct H1 as [Hs1 Hm1].
  cbn [wrap_chunks]. fold chunks1.
  destruct (take_fitting w 0 chunks1) as [[line cur_len] rest] eqn:Ht.
  pose proof (take_fitting_app _ _ _ _ _ _ Ht) as Happ.
  destruct rest as [|ch rest'].
  - apply Hstep.
    + rewrite app_nil_r in Happ. rewrite Happ, <- Hs1. simpl. rewrite app_nil_r; reflexivity.
    + unfold wrap_measure at 1; simpl. rewrite wrap_measure_cons. lia.
  - destruct (ulen ch >? w) eqn:Hlong.
    + destruct (handle_long_word ch cur_len w) as [piece rem] eqn:Hh.
      pose proof (handle_long_word_app ch cur_len w) as Hpr. rewrite Hh in Hpr; simpl in Hpr.
      pose proof (handle_long_word_shorter ch cur_len w) as Hsh. rewrite Hh in Hsh; simpl in Hsh.
      apply Hstep.
      * rewrite <- Hs1, <- Happ, <- Hpr. rewrite !concat_app. cbn [concat].
        rewrite !strip_ws_app, !app_nil_r, !app_assoc. reflexivity.
      * rewrite !wrap_measure_cons.
        destruct line as [|x line'].
        -- simpl in Happ. rewrite <- Happ in Ht.
           apply take_fitting_nil in Ht as [Hwl [-> _]].
           assert (Hp : (length rem < length ch)%nat).
           { pose proof (handle_long_word_progress ch w Hw Hwl) as Hp.
             rewrite Hh in Hp; exact Hp. }
           destruct Hm1 as [Hc|Hc]; rewrite <- Happ in Hc.
           ++ injection Hc as -> ->. lia.
           ++ rewrite wrap_measure_cons in Hc. rewrite wrap_measure_cons in Hc. lia.
        -- assert (Hle : (wrap_measure chunks1 <= wrap_measure (first :: others))%nat).
           { destruct Hm1 as [->|]; lia. }
           rewrite <- Happ, wrap_measure_app, !wrap_measure_cons in Hle. lia.
    + apply Hstep.
      * rewrite <- Hs1, <- Happ, concat_app, strip_ws_app. reflexivity.
      * destruct line as [|x line'].
        -- simpl in Happ. rewrite <- Happ in Ht.
           apply take_fitting_nil in Ht as [Hwl _]. rewrite Z.gtb_ltb in Hlong.
           apply Z.ltb_ge in Hlong. lia.
        -- assert (Hle : (wrap_measure chunks1 <= wrap_measure (first :: others))%nat).
           { destruct Hm1 as [->|]; lia. }
           rewrite <- Happ, wrap_measure_app, !wrap_measure_cons in Hle.
           rewrite !wrap_measure_cons. lia.
Qed.

(** [textwrap.fill] only changes whitespace: the text without whitespace is
    unchanged. *)
Lemma strip_fill t w : 1 <= w -> strip_ws (fill t w) = strip_ws t.
Proof.
  intros Hw. unfold fill, wrap.
  rewrite strip_join_nl, strip_wrap_chunks by (auto; lia).
  rewrite concat_split_chunks, strip_munge. reflexivity.
Qed.

(** ** Substrings of the drafts *)

Ltac find_sub :=
  first [ apply substr_refl
        | assumption
        | apply substr_app_l; find_sub
        | apply substr_app_r; find_sub ].

Lemma substr_trans a b c : substr a b -> substr b c -> substr a c.
Proof.
  intros [x [y ->]] [x' [y' ->]]. exists (x' ++ x), (y ++ y').
  rewrite <- !app_assoc; reflexivity.
Qed.

Lemma substr_join_in sep xs x : In x xs -> substr x (join sep xs).
Proof.
  induction xs as [|y xs IH]; intros Hin; [destruct Hin|].
  destruct Hin as [->|Hin].
  - destruct xs; [apply substr_refl|]. apply substr_app_l, substr_refl.
  - destruct xs as [|z xs]; [destruct Hin|].
    change (join sep (y :: z :: xs)) with (y ++ sep ++ join sep (z :: xs)).
    apply substr_app_r, substr_app_r, IH, Hin.
Qed.

Lemma strip_mk_final_draft v r b :
  strip_ws (mk_final_draft v r b) =
  strip_ws (legal_intro v r b) ++ strip_ws (legal_evidence b) ++ strip_ws (legal_closing b).
Proof.
  unfold mk_final_draft.
  change (join [10; 10] (map (fun p => fill p 110)
            [legal_intro v r b; legal_evidence b; legal_closing b]))
    with (fill (legal_intro v r b) 110 ++ [10; 10] ++ fill (legal_evidence b) 110 ++
          [10; 10] ++ fill (legal_closing b) 110).
  rewrite !strip_ws_app, !strip_fill by lia. reflexivity.
Qed.

Lemma legal_evidence_parts b :
  exists parts, legal_evidence b = join (u" ") parts /\
    In (name b ++ u" has authored " ++ py_str (pubs b) ++
        u" peer-reviewed publications with approximately " ++ py_str (citations b) ++
        u" citations.") parts /\
    In (name b ++ u"'s research appears at " ++ join (u", ") (key_venues b) ++
        u" and is widely recognized in " ++ field b ++ u".") parts /\
    (key_awards b <> [] ->
     In (u"Notably, " ++ name b ++ u" received " ++ join (u", ") (key_awards b) ++ u".") parts).
Proof.
  unfold legal_evidence. destruct (key_awards b) as [|a awards] eqn:E.
  - eexists; split; [reflexivity|]. cbn [app In]. intuition.
  - eexists; split; [reflexivity|]. cbn [app In]. intuition.
Qed.

(** every fact of the record is a substring of the unwrapped intro or
    evidence paragraph *)
Lemma fact_in_paragraph v r b x :
  In x (py_str (pubs b) :: py_str (citations b) :: v :: key_awards b ++ key_venues b) ->
  substr x (legal_intro v r b) \/ substr x (legal_evidence b).
Proof.
  destruct (legal_evidence_parts b) as [parts [Hev [H1 [H2 H3]]]].
  intros Hin. destruct Hin as [<-|[<-|[<-|Hin]]].
  - right. rewrite Hev. eapply substr_trans; [|apply substr_join_in, H1]. find_sub.
  - right. rewrite Hev. eapply substr_trans; [|apply substr_join_in, H1]. find_sub.
  - left. unfold legal_intro. find_sub.
  - right. rewrite Hev. apply in_app_or in Hin as [Hin|Hin].
    + assert (Hne : key_awards b <> []) by (intros E; rewrite E in Hin; destruct Hin).
      eapply substr_trans; [|apply substr_join_in, H3, Hne].
      pose proof (substr_join_in (u", ") _ _ Hin). find_sub.
    + eapply substr_trans; [|apply substr_join_in, H2].
      pose proof (substr_join_in (u", ") _ _ Hin). find_sub.
Qed.

(** ** The monad *)

Lemma bind_inr {St A B} (m : M St A) (f : A -> M St B) s b s' :
  bind m f s = inr (b, s') -> exists a s1, m s = inr (a, s1) /\ f a s1 = inr (b, s').
Proof.
  unfold bind. destruct (m s) as [e|[a s1]]; [discriminate|]. eauto.
Qed.

Lemma ret_inr {St A} (a b : A) (s s' : St) : ret a s = inr (b, s') -> a = b /\ s = s'.
Proof. unfold ret. intros H; injection H as -> ->; auto. Qed.

Ltac inv_bind H :=
  let x := fresh "x" in let s1 := fresh "s" in let Hm := fresh "Hm" in
  apply bind_inr in H as [x [s1 [Hm H]]].

Lemma py_index_ok {A} (xs : list A) (j : Z) :
  0 <= j < Z.of_nat (length xs) -> py_index xs j = Some (Z.to_nat j).
Proof.
  intros Hj. unfold py_index.
  destruct (j <? 0) eqn:E; [apply Z.ltb_lt in E; lia|].
  destruct ((0 <=? j) && (j <? Z.of_nat (length xs))) eqn:E2; [reflexivity|].
  apply andb_false_iff in E2 as [E2|E2]; [apply Z.leb_gt in E2|apply Z.ltb_ge in E2]; lia.
Qed.

Lemma py_getitem_ok {St A} (xs : list A) (j : Z) x (s : St) :
  0 <= j -> nth_error xs (Z.to_nat j) = Some x -> py_getitem xs j s = inr (x, s).
Proof.
  intros Hj Hx. unfold py_getitem.
  assert (Hl : (Z.to_nat j < length xs)%nat) by (apply nth_error_Some; congruence).
  rewrite py_index_ok by lia. rewrite Hx. reflexivity.
Qed.

Lemma py_getitem_nonneg {St A} (xs : list A) (j : Z) x (s s' : St) :
  0 <= j -> py_getitem xs j s = inr (x, s') ->
  nth_error xs (Z.to_nat j) = Some x /\ s' = s.
Proof.
  intros Hj. unfold py_getitem, py_index.
  destruct (j <? 0) eqn:E; [apply Z.ltb_lt in E; lia|].
  destruct (_ && _); [|discriminate].
  destruct (nth_error xs (Z.to_nat j)); [|discriminate].
  intros H; injection H as -> ->; auto.
Qed.

Lemma py_setitem_ok {St A} (xs : list A) (j : Z) y (s : St) :
  0 <= j < Z.of_nat (length xs) ->
  py_setitem xs j y s = inr (list_set xs (Z.to_nat j) y, s).
Proof. intros Hj. unfold py_setitem. rewrite py_index_ok by lia. reflexivity. Qed.

Lemma list_set_app_l {A} (xs ys : list A) j y :
  (j < length xs)%nat -> list_set (xs ++ ys) j y = list_set xs j y ++ ys.
Proof.
  revert j; induction xs as [|x xs IH]; intros j Hj; simpl in *; [lia|].
  destruct j; [reflexivity|]. rewrite IH by lia. reflexivity.
Qed.

Lemma length_list_set {A} (xs : list A) j y : length (list_set xs j y) = length xs.
Proof.
  revert j; induction xs as [|x xs IH]; intros j; [reflexivity|].
  destruct j; simpl; auto.
Qed.

Lemma list_set_middle {A} (a b : list A) x y :
  list_set (a ++ x :: b) (length a) y = a ++ y :: b.
Proof. induction a as [|c a IH]; simpl; [reflexivity|]. rewrite IH; reflexivity. Qed.


(** [pool[j] = pool[m - 1]] on the live part [pool[:m]], then keeping
    [pool[:m - 1]]: the element at [j] leaves the live part. *)
Lemma swap_remove_perm {A} (L : list A) (j : nat) x y :
  nth_error L j = Some x -> nth_error L (length L - 1) = Some y ->
  Permutation (x :: firstn (length L - 1) (list_set L j y)) L.
Proof.
  intros Hx Hy.
  destruct L as [|z L'] using rev_ind; [destruct j; discriminate|].
  rewrite length_app in Hy |- *; simpl in *.
  replace (length L' + 1 - 1)%nat with (length L') in * by lia.
  rewrite nth_error_app2, Nat.sub_diag in Hy by lia. simpl in Hy. injection Hy as ->.
  assert (Hj : (j < length L' + 1)%nat).
  { assert (nth_error (L' ++ [y]) j <> None) by congruence.
    apply nth_error_Some in H. rewrite length_app in H; simpl in H; lia. }
  destruct (Nat.eq_dec j (length L')) as [->|Hne].
  - rewrite nth_error_app2, Nat.sub_diag in Hx by lia. injection Hx as ->.
    rewrite (list_set_middle L' [] x x).
    rewrite firstn_app, firstn_all, Nat.sub_diag. simpl. rewrite app_nil_r.
    apply Permutation_cons_append.
  - rewrite nth_error_app1 in Hx by lia.
    rewrite list_set_app_l by lia.
    rewrite firstn_app, <- (length_list_set L' j y), firstn_all, Nat.sub_diag.
    simpl. rewrite app_nil_r.
    destruct (nth_error_split L' j Hx) as [a [b [-> <-]]].
    rewrite list_set_middle, <- app_assoc. simpl.
    apply Permutation_cons_app, Permutation_app_head, Permutation_cons_append.
Qed.

(** ** [random.sample] *)

Section SampleOk.
Context {St : Type} {HR : RandomSource St} {HO : RandomSourceOk St}.

Lemma rand_below_inr n s j s' : 0 < n -> rand_below n s = inr (j, s') -> 0 <= j < n.
Proof.
  unfold rand_below. intros Hn H. pose proof (randbelow_range n s Hn) as Hr.
  injection H as E. rewrite E in Hr; exact Hr.
Qed.

Lemma sample_pool_ok {A} n i k (live dead : list A) s xs s' :
  Z.of_nat (length live) = n - i -> (k <= length live)%nat -> NoDup live ->
  sample_pool n i k (live ++ dead) s = inr (xs, s') ->
  NoDup xs /\ incl xs live /\ length xs = k.
Proof.
  revert i live dead s xs s'. induction k as [|k IH]; intros i live dead s xs s' Hl Hk Hnd H.
  - cbn in H. injection H as <- _. repeat split; [constructor | intros ? []].
  - cbn [sample_pool] in H.
    inv_bind H. inv_bind H. inv_bind H. inv_bind H. inv_bind H.
    apply ret_inr in H as [<- _].
    apply rand_below_inr in Hm; [|lia].
    apply py_getitem_nonneg in Hm0 as [Hx ->]; [|lia].
    rewrite nth_error_app1 in Hx by lia.
    apply py_getitem_nonneg in Hm1 as [Hy ->]; [|lia].
    replace (Z.to_nat (n - i - 1)) with (length live - 1)%nat in Hy by lia.
    rewrite nth_error_app1 in Hy by lia.
    rewrite py_setitem_ok in Hm2 by (rewrite length_app; lia).
    injection Hm2 as <- ->.
    rewrite list_set_app_l in Hm3 by lia.
    pose proof (swap_remove_perm live (Z.to_nat x) x0 x1 Hx Hy) as Hp.
    set (ls := list_set live (Z.to_nat x) x1) in *.
    rewrite <- (firstn_skipn (length live - 1) ls), <- app_assoc in Hm3.
    assert (Hlen : length (firstn (length live - 1) ls) = (length live - 1)%nat).
    { rewrite length_firstn. unfold ls. rewrite length_list_set. lia. }
    pose proof (Permutation_NoDup (Permutation_sym Hp) Hnd) as Hnd'.
    inversion Hnd' as [|? ? Hnotin Hnd'']; subst.
    eapply IH in Hm3 as [Hr1 [Hr2 Hr3]];
      [| rewrite Hlen; lia | rewrite Hlen; lia | exact Hnd''].
    repeat split.
    + constructor; [|exact Hr1]. intros Hin. apply Hnotin, Hr2, Hin.
    + intros z [<-|Hz]; [eapply nth_error_In; exact Hx|].
      apply (Permutation_in _ Hp). right. apply Hr2, Hz.
    + simpl. rewrite Hr3. reflexivity.
Qed.


Lemma redraw_ok fuel n sel s j s' :
  0 < n -> redraw fuel n sel s = inr (j, s') -> 0 <= j < n /\ ~ In j sel.
Proof.
  intros Hn. revert s. induction fuel as [|fuel IH]; intros s H; [discriminate|].
  cbn [redraw] in H. inv_bind H. apply rand_below_inr in Hm; [|exact Hn].
  destruct (existsb (Z.eqb x) sel) eqn:E; [eapply IH; exact H|].
  apply ret_inr in H as [<- _]. split; [exact Hm|].
  intros Hin. assert (Hc : existsb (Z.eqb x) sel = true).
  { apply existsb_exists. exists x. split; [exact Hin | apply Z.eqb_refl]. }
  congruence.
Qed.

Lemma py_getitem_nil {St' A} (j : Z) (s : St') x s' :
  py_getitem (@nil A) j s <> inr (x, s').
Proof.
  unfold py_getitem, py_index. simpl.
  destruct (j <? 0); destruct (0 <=? _) eqn:E1; destruct (_ <? 0) eqn:E2; simpl;
    try discriminate; apply Z.ltb_lt in E2; apply Z.leb_le in E1; lia.
Qed.

Lemma sample_set_ok {A} n k (pop : list A) sel s xs s' :
  Z.of_nat (length pop) = n ->
  sample_set n k pop sel s = inr (xs, s') ->
  exists js, NoDup js /\ (forall j, In j js -> ~ In j sel) /\
    Forall2 (fun j x => 0 <= j /\ nth_error pop (Z.to_nat j) = Some x) js xs /\
    length xs = k.
Proof.
  intros Hn. revert sel s xs s'. induction k as [|k IH]; intros sel s xs s' H.
  - cbn in H. injection H as <- _. exists [].
    repeat split; auto using NoDup_nil; intros j [].
  - cbn [sample_set] in H. inv_bind H. inv_bind H. inv_bind H.
    apply ret_inr in H as [<- _].
    destruct pop as [|p pop']; [exfalso; eapply py_getitem_nil; exact Hm0|].
    apply redraw_ok in Hm as [Hj Hsel]; [|simpl in Hn; lia].
    apply py_getitem_nonneg in Hm0 as [Hx ->]; [|lia].
    destruct (IH _ _ _ _ Hm1) as [js [Hnd [Hout [Hf Hl]]]].
    exists (x :: js). repeat split.
    + constructor; [|exact Hnd]. intros Hin. apply (Hout x Hin). left; reflexivity.
    + intros j [<-|Hin]; [exact Hsel|]. intros Hs. apply (Hout j Hin). right; exact Hs.
    + constructor; [split; [lia|exact Hx] | exact Hf].
    + simpl. rewrite Hl. reflexivity.
Qed.

Lemma forall2_index_nodup {A} (pop : list A) js xs :
  NoDup pop -> NoDup js ->
  Forall2 (fun j x => 0 <= j /\ nth_error pop (Z.to_nat j) = Some x) js xs ->
  NoDup xs /\ incl xs pop.
Proof.
  intros Hpop Hjs Hf. induction Hf as [|j x js xs [Hj Hx] Hf IH]; [split; [constructor | intros ? []]|].
  inversion Hjs as [|? ? Hnotin Hjs']; subst.
  destruct (IH Hjs') as [Hnd Hincl].
  assert (Hback : forall y, In y xs -> exists j', In j' js /\ 0 <= j' /\
                    nth_error pop (Z.to_nat j') = Some y).
  { clear -Hf. induction Hf as [|j' y js' ys [Hj' Hy] Hf' IH']; intros z Hz; [destruct Hz|].
    destruct Hz as [Hyz|Hz]; [subst; exists j'; split; [left; reflexivity | auto]|].
    destruct (IH' z Hz) as [j'' [? ?]]. exists j''. split; [right|]; auto. }
  split.
  - constructor; [|exact Hnd]. intros Hin.
    destruct (Hback x Hin) as [j' [Hj'in [Hj' Hx']]].
    assert (Hlt : (Z.to_nat j < length pop)%nat) by (apply nth_error_Some; congruence).
    pose proof (proj1 (NoDup_nth_error pop) Hpop (Z.to_nat j) (Z.to_nat j') Hlt
                  ltac:(rewrite Hx, Hx'; reflexivity)) as Heq.
    apply Hnotin. replace j with j' by lia. exact Hj'in.
  - intros y [<-|Hy]; [eapply nth_error_In; exact Hx | apply Hincl, Hy].
Qed.

Lemma sample_ok {A} (pop : list A) k s xs s' :
  NoDup pop -> sample pop k s = inr (xs, s') ->
  NoDup xs /\ incl xs pop /\ length xs = Z.to_nat k /\
  0 <= k <= Z.of_nat (length pop).
Proof.
  intros Hpop H. unfold sample in H.
  destruct (negb ((0 <=? k) && (k <=? Z.of_nat (length pop)))) eqn:E; [discriminate|].
  apply negb_false_iff, andb_true_iff in E as [E1 E2].
  apply Z.leb_le in E1. apply Z.leb_le in E2.
  destruct (_ <=? _).
  - assert (H' : sample_pool (Z.of_nat (length pop)) 0 (Z.to_nat k) (pop ++ []) s
                  = inr (xs, s')) by (rewrite app_nil_r; exact H).
    apply sample_pool_ok in H' as [? [? ?]]; [auto | lia | lia | exact Hpop].
  - apply sample_set_ok in H as [js [Hnd [_ [Hf Hl]]]]; [|reflexivity].
    destruct (forall2_index_nodup pop js xs Hpop Hnd Hf). auto.
Qed.


Lemma randint_inr a b s v s' : randint a b s = inr (v, s') -> a <= v <= b.
Proof.
  unfold randint. destruct (0 <? b + 1 - a) eqn:E; [|discriminate].
  apply Z.ltb_lt in E. intros H. inv_bind H. apply rand_below_inr in Hm; [|lia].
  apply ret_inr in H as [<- _]. lia.
Qed.

Lemma choice_inr {A} (xs : list A) s x s' : choice xs s = inr (x, s') -> In x xs.
Proof.
  unfold choice. destruct xs as [|y ys]; [discriminate|]. intros H. inv_bind H.
  apply rand_below_inr in Hm; [|simpl; lia].
  apply py_getitem_nonneg in H as [Hx _]; [|lia]. eapply nth_error_In; exact Hx.
Qed.

Lemma choice_no_replacement_ok pool k s xs s' :
  NoDup pool -> choice_no_replacement pool k s = inr (xs, s') ->
  NoDup xs /\ incl xs pool /\ Z.of_nat (length xs) = Z.min k (Z.of_nat (length pool)).
Proof.
  unfold choice_no_replacement. intros Hnd H.
  apply sample_ok in H as [H1 [H2 [H3 H4]]]; [|exact Hnd].
  repeat split; auto. rewrite H3. lia.
Qed.

(** What [mk_beneficiary] returns: counts in their ranges, and award and
    venue lists drawn without repetition from their pools. *)
Lemma mk_beneficiary_ok (cfg : config) i s f s' :
  NoDup (AWARD_POOL cfg) -> NoDup (VENUE_POOL cfg) ->
  mk_beneficiary cfg i s = inr (f, s') ->
  fst (PUB_RANGE cfg) <= pubs f <= snd (PUB_RANGE cfg) /\
  fst (CITATION_RANGE cfg) <= citations f <= snd (CITATION_RANGE cfg) /\
  NoDup (key_awards f) /\ incl (key_awards f) (AWARD_POOL cfg) /\
  NoDup (key_venues f) /\ incl (key_venues f) (VENUE_POOL cfg) /\
  (length (key_awards f) <= 2)%nat /\ (length (key_venues f) <= 3)%nat /\
  (VENUE_POOL cfg <> [] -> (1 <= length (key_venues f))%nat) /\
  In (field f) (FIELDS cfg) /\ name f = u"Dr. Alex " ++ py_str i.
Proof.
  intros Ha Hv H. unfold mk_beneficiary in H.
  inv_bind H. inv_bind H. inv_bind H. inv_bind H. inv_bind H. inv_bind H. inv_bind H.
  apply ret_inr in H as [<- _]. cbn [pubs citations key_awards key_venues field name].
  apply choice_inr in Hm.
  apply randint_inr in Hm0. apply randint_inr in Hm1.
  apply randint_inr in Hm2. apply randint_inr in Hm4.
  apply choice_no_replacement_ok in Hm3 as [Ha1 [Ha2 Ha3]]; [|exact Ha].
  apply choice_no_replacement_ok in Hm5 as [Hv1 [Hv2 Hv3]]; [|exact Hv].
  repeat split; auto; try lia.
  intros Hne. destruct (VENUE_POOL cfg) as [|p ps]; [congruence|]. simpl in Hv3. lia.
Qed.

Lemma choice_no_replacement_nil k s :
  0 <= k -> choice_no_replacement [] k s = inr ([], s).
Proof.
  intros Hk. unfold choice_no_replacement, sample. simpl.
  rewrite Z.min_r by lia. reflexivity.
Qed.

End SampleOk.

(** [random.sample] from an empty population returns the empty list (or
    raises, when [k <> 0]). *)
Lemma sample_nil {St A} {HR : RandomSource St} k (s s' : St) (xs : list A) :
  sample [] k s = inr (xs, s') -> xs = [].
Proof.
  unfold sample. cbn [length Z.of_nat].
  destruct (negb ((0 <=? k) && (k <=? 0))) eqn:E; [discriminate|].
  apply negb_false_iff, andb_true_iff in E as [E1 E2].
  apply Z.leb_le in E1. apply Z.leb_le in E2.
  replace k with 0 by lia. cbn. intros H; injection H as <- _; reflexivity.
Qed.

(** The scripted source obeys the laws of the primitives. *)
#[export] Instance script_source_ok : RandomSourceOk script.
Proof.
  split.
  - intros [[|k ks]]; simpl; [lia|]. apply Z.mod_pos_bound. lia.
  - intros n [[|k ks]] Hn; simpl; [lia|]. apply Z.mod_pos_bound. lia.
Qed.

(** ** The steps of the rough draft *)

Lemma bind_assoc_pt {St A B C} (m : M St A) (f : A -> M St B) (g : B -> M St C) s :
  bind (bind m f) g s = bind m (fun a => bind (f a) g) s.
Proof. unfold bind. destruct (m s) as [e|[a s']]; reflexivity. Qed.

Lemma bind_ret_pt {St A B} (a : A) (f : A -> M St B) s : bind (ret a) f s = f a s.
Proof. reflexivity. Qed.

Lemma bind_ext_pt {St A B} (m : M St A) (f g : A -> M St B) s :
  (forall a s', f a s' = g a s') -> bind m f s = bind m g s.
Proof. intros H. unfold bind. destruct (m s) as [e|[a s']]; auto. Qed.

Lemma if_bind_pt {St A B} (c : bool) (m1 m2 : M St A) (f : A -> M St B) s :
  bind (if c then m1 else m2) f s = if c then bind m1 f s else bind m2 f s.
Proof. destruct c; reflexivity. Qed.

Ltac norm_bind :=
  repeat first
    [ reflexivity
    | rewrite bind_assoc_pt
    | rewrite bind_ret_pt
    | match goal with
      | |- (if ?c then _ else _) = _ => destruct c
      | |- _ = (if ?c then _ else _) => destruct c
      | |- bind (if ?c then _ else _) _ _ = _ => rewrite (if_bind_pt c)
      | |- _ = bind (if ?c then _ else _) _ _ => rewrite (if_bind_pt c)
      | |- bind (match ?l with [] => _ | _ :: _ => _ end) _ _ = _ => destruct l
      end
    | apply bind_ext_pt; intros ].

(** [mk_rough_draft] is the composition of its steps. *)
Lemma mk_rough_draft_steps {St} {HR : RandomSource St} cfg visa_type r b (s : St) :
  mk_rough_draft cfg visa_type r b s = rough_steps cfg visa_type b s.
Proof.
  unfold mk_rough_draft, rough_steps, step_visa_mention, step_omit, step_count,
    step_hallucination, step_style, step_section, step_misname, step_finish, rough_chunks.
  norm_bind.
Qed.

Lemma bind_inr_l {St A B} (m : M St A) (f : A -> M St B) s a s' :
  m s = inr (a, s') -> bind m f s = f a s'.
Proof. intros H. unfold bind. rewrite H. reflexivity. Qed.

Lemma py_setitem_last2 {St A} (a b x : A) (s : St) :
  py_setitem [a; b] (-1) x s = inr ([a; x], s).
Proof. reflexivity. Qed.

Lemma py_setitem_last3 {St A} (a b c x : A) (s : St) :
  py_setitem [a; b; c] (-1) x s = inr ([a; b; x], s).
Proof. reflexivity. Qed.

Lemma py_setitem_last4 {St A} (a b c d x : A) (s : St) :
  py_setitem [a; b; c; d] (-1) x s = inr ([a; b; c; x], s).
Proof. reflexivity. Qed.

Lemma py_setitem_1_3 {St A} (a b c x : A) (s : St) :
  py_setitem [a; b; c] 1 x s = inr ([a; x; c], s).
Proof. reflexivity. Qed.

Lemma py_getitem_1_3 {St A} (a b c : A) (s : St) :
  py_getitem [a; b; c] 1 s = inr (b, s).
Proof. reflexivity. Qed.

Lemma random_lt_unfold {St} {HR : RandomSource St} p (s : St) :
  random_lt p s = inr (lt_float (fst (random_ s)) p, snd (random_ s)).
Proof. unfold random_lt, py_random, bind, ret. destruct (random_ s); reflexivity. Qed.

Lemma random_logged {St} {HR : RandomSource St} (s : St) log :
  @random_ (St * list Z) logged_source (s, log) =
  (fst (random_ s), (snd (random_ s), fst (random_ s) :: log)).
Proof. simpl. destruct (random_ s); reflexivity. Qed.

Lemma choice_logged {St A} {HR : RandomSource St} (xs : list A) (s : St) log x s' log' :
  choice xs (s, log) = inr (x, (s', log')) -> log' = log.
Proof.
  unfold choice. destruct xs as [|y ys]; [discriminate|].
  unfold bind, rand_below. simpl. destruct (randbelow _ s) as [j s1].
  unfold py_getitem. destruct (py_index _ j); [|discriminate].
  destruct (nth_error _ _); [|discriminate]. intros H; injection H as _ _ <-. reflexivity.
Qed.

Ltac step_rw :=
  repeat first
   [ rewrite (bind_inr_l _ _ _ _ _ (random_lt_unfold _ _))
   | rewrite bind_ret_pt
   | rewrite py_setitem_1_3 | rewrite py_getitem_1_3
   | rewrite (bind_inr_l _ _ _ _ _ (py_getitem_1_3 _ _ _ _))
   | match goal with E : lt_float _ _ = _ |- _ => rewrite E end
   | match goal with E : key_awards _ = _ |- _ => rewrite E end
   | match goal with Hm : ?m ?s = inr _ |- context [bind ?m _ ?s] => rewrite (bind_inr_l _ _ _ _ _ Hm) end ].

Ltac step_rw_in H :=
  repeat first
   [ rewrite (bind_inr_l _ _ _ _ _ (random_lt_unfold _ _)) in H
   | rewrite bind_ret_pt in H
   | rewrite py_setitem_1_3 in H | rewrite py_getitem_1_3 in H
   | rewrite (bind_inr_l _ _ _ _ _ (py_getitem_1_3 _ _ _ _)) in H ].

Ltac split_in H :=
  repeat match type of H with
  | context [lt_float ?k ?p] => let E := fresh "E" in destruct (lt_float k p) eqn:E
  | context [match key_awards ?b with _ => _ end] => let E := fresh "E" in destruct (key_awards b) eqn:E
  end.

Ltac middle_step H :=
  intros H; step_rw_in H; split_in H; step_rw_in H;
  try (inv_bind H; step_rw_in H);
  injection H as <- <-; eexists; (split; [reflexivity|]); intros x2; step_rw; reflexivity.

Lemma step_omit_last {St} {HR : RandomSource St} cfg b i e x (s : St) c' s' :
  step_omit cfg b [i; e; x] s = inr (c', s') ->
  exists e', c' = [i; e'; x] /\
    forall x2, step_omit cfg b [i; e; x2] s = inr ([i; e'; x2], s').
Proof. unfold step_omit. middle_step H. Qed.

Lemma step_count_last {St} {HR : RandomSource St} cfg b i e x (s : St) c' s' :
  step_count cfg b [i; e; x] s = inr (c', s') ->
  exists e', c' = [i; e'; x] /\
    forall x2, step_count cfg b [i; e; x2] s = inr ([i; e'; x2], s').
Proof. unfold step_count, py_iadd_item. middle_step H. Qed.

Lemma step_hallucination_last {St} {HR : RandomSource St} cfg i e x (s : St) c' s' :
  step_hallucination cfg [i; e; x] s = inr (c', s') ->
  exists e', c' = [i; e'; x] /\
    forall x2, step_hallucination cfg [i; e; x2] s = inr ([i; e'; x2], s').
Proof. unfold step_hallucination, py_iadd_item. middle_step H. Qed.

Lemma step_style_prefix {St} {HR : RandomSource St} cfg c (s : St) :
  step_style cfg c s =
  inr ((if lt_float (fst (random_ s)) (P_STYLE_WEAK cfg) then [STYLE_FILLER] else []) ++ c,
       snd (random_ s)).
Proof.
  unfold step_style. rewrite (bind_inr_l _ _ _ _ _ (random_lt_unfold _ _)).
  destruct (lt_float _ _); reflexivity.
Qed.

(** [step_visa_mention] only rewrites the last chunk. *)
Lemma step_visa_mention_last {St} {HR : RandomSource St} cfg v i e x (s : St) :
  exists y, step_visa_mention cfg v [i; e; x] s = inr ([i; e; y], snd (random_ s)).
Proof.
  unfold step_visa_mention. rewrite (bind_inr_l _ _ _ _ _ (random_lt_unfold _ s)).
  rewrite py_setitem_last3. eauto.
Qed.

Lemma drop_last_snoc {A} (l : list A) (a : A) : drop_last (l ++ [a]) = l.
Proof.
  unfold drop_last. rewrite length_app. simpl. rewrite Nat.add_sub.
  rewrite firstn_app, Nat.sub_diag, firstn_all. simpl. apply app_nil_r.
Qed.

Lemma drop_last_app3 {A} (l : list A) (a b c : A) : drop_last (l ++ [a; b; c]) = l ++ [a; b].
Proof.
  replace (l ++ [a; b; c]) with ((l ++ [a; b]) ++ [c]) by (rewrite <- app_assoc; reflexivity).
  apply drop_last_snoc.
Qed.

Section Logged.
Context {St : Type} {HR : RandomSource St} {HO : RandomSourceOk St}.

Lemma random_lt_logged p (s : St) log :
  random_lt p (s, log) =
  inr (lt_float (fst (random_ s)) p, (snd (random_ s), fst (random_ s) :: log)).
Proof. rewrite random_lt_unfold, random_logged. reflexivity. Qed.

Lemma lt_float_1_0 k : 0 <= k < 2 ^ 53 -> lt_float k P_1_0 = true.
Proof. intros Hk. unfold lt_float, P_1_0. simpl. apply Z.ltb_lt. lia. Qed.

(** With [P_SECTION_MISS = 1.0] the section gate always fires and draws
    its coin right after. *)
Lemma step_section_logged cfg c (s : St) log :
  P_SECTION_MISS cfg = P_1_0 ->
  step_section cfg c (s, log) =
  let k1 := fst (random_ s) in let s1 := snd (random_ s) in
  let k2 := fst (random_ s1) in let s2 := snd (random_ s1) in
  if lt_float k2 P_0_5 && (2 <? Z.of_nat (length c))
  then py_pop0 c (s2, k2 :: k1 :: log)
  else inr (drop_last c, (s2, k2 :: k1 :: log)).
Proof.
  intros HP. unfold step_section. rewrite HP.
  rewrite (bind_inr_l _ _ _ _ _ (random_lt_logged _ _ _)).
  rewrite (lt_float_1_0 _ (random_range s)).
  rewrite (bind_inr_l _ _ _ _ _ (random_lt_logged _ _ _)). cbn zeta.
  destruct (_ && _); reflexivity.
Qed.

Lemma step_section_log cfg c (s : St) log c' s' log' :
  P_SECTION_MISS cfg = P_1_0 ->
  step_section cfg c (s, log) = inr (c', (s', log')) ->
  log' = fst (random_ (snd (random_ s))) :: fst (random_ s) :: log.
Proof.
  intros HP. rewrite (step_section_logged _ _ _ _ HP). cbn zeta.
  destruct (_ && _).
  - unfold py_pop0. destruct c; [discriminate|]. intros H; injection H as _ _ <-. reflexivity.
  - intros H; injection H as _ _ <-. reflexivity.
Qed.

Lemma step_section_drop cfg c (s : St) log :
  P_SECTION_MISS cfg = P_1_0 ->
  lt_float (fst (random_ (snd (random_ s)))) P_0_5 = false ->
  step_section cfg c (s, log) =
  inr (drop_last c, (snd (random_ (snd (random_ s))),
                     fst (random_ (snd (random_ s))) :: fst (random_ s) :: log)).
Proof. intros HP E. rewrite (step_section_logged _ _ _ _ HP). cbn zeta. rewrite E. reflexivity. Qed.

Lemma step_misname_log cfg v c (s : St) log c' s' log' :
  step_misname cfg v c (s, log) = inr (c', (s', log')) -> log' = fst (random_ s) :: log.
Proof.
  unfold step_misname. rewrite (bind_inr_l _ _ _ _ _ (random_lt_logged _ _ _)).
  destruct (lt_float _ _).
  - intros H. apply bind_inr in H as [w [[s2 log2] [Hm H]]].
    apply choice_logged in Hm. subst log2. unfold py_setitem in H.
    destruct (py_index _ _); [|discriminate]. injection H as _ _ <-. reflexivity.
  - intros H. injection H as _ _ <-. reflexivity.
Qed.

Lemma step_misname_pass cfg v c (s : St) log :
  lt_float (fst (random_ s)) P_0_08 = false ->
  step_misname cfg v c (s, log) = inr (c, (snd (random_ s), fst (random_ s) :: log)).
Proof.
  intros E. unfold step_misname. rewrite (bind_inr_l _ _ _ _ _ (random_lt_logged _ _ _)), E.
  reflexivity.
Qed.

Lemma step_finish_log c (s : St) log d s' log' :
  step_finish c (s, log) = inr (d, (s', log')) -> log' = fst (random_ s) :: log.
Proof.
  unfold step_finish. rewrite (bind_inr_l _ _ _ _ _ (random_lt_logged _ _ _)).
  intros H. injection H as _ _ <-. reflexivity.
Qed.

End Logged.


(** ** Count corruption *)

Section WrongCount.
Context {St : Type} {HR : RandomSource St} {HO : RandomSourceOk St}.

Lemma maybe_wrong_count_spec t (s : St) w s' :
  maybe_wrong_count t s = inr (w, s') ->
  exists delta, 5 <= delta <= 20 /\ (w = Z.max 1 (t - delta) \/ w = Z.max 1 (t + delta)).
Proof.
  unfold maybe_wrong_count, randint. cbn [Z.add Z.sub Z.ltb Z.compare]. intros H.
  apply bind_inr in H as [delta [s1 [H1 H]]].
  apply bind_inr in H1 as [j [s2 [Hj H1]]]. unfold rand_below in Hj.
  injection Hj as Ej.
  match type of Ej with randbelow ?n ?s = _ =>
    pose proof (randbelow_range n s ltac:(simpl; lia)) as Hr end.
  rewrite Ej in Hr. simpl in Hr.
  apply ret_inr in H1 as [<- _].
  apply bind_inr in H as [sgn [s3 [Hs H]]]. apply ret_inr in H as [<- _].
  exists (5 + j). split; [lia|].
  unfold choice in Hs. apply bind_inr in Hs as [j2 [s4 [Hj2 Hs]]].
  unfold rand_below in Hj2. injection Hj2 as Ej2.
  match type of Ej2 with randbelow ?n ?s = _ =>
    pose proof (randbelow_range n s ltac:(simpl; lia)) as Hr2 end.
  rewrite Ej2 in Hr2. simpl in Hr2.
  assert (j2 = 0 \/ j2 = 1) as [-> | ->] by lia; cbv [py_getitem py_index] in Hs; simpl in Hs;
  injection Hs as <- _; [left | right]; f_equal; lia.
Qed.

Lemma max_offset_differs t delta w :
  5 <= delta -> (w = Z.max 1 (t - delta) \/ w = Z.max 1 (t + delta)) -> t <> 1 -> w <> t.
Proof. lia. Qed.

End WrongCount.

(** ** Runs on related states *)

Section RelatedLemmas.
Context {S1 S2 : Type} {H1 : RandomSource S1} {H2 : RandomSource S2}.
Variable R : S1 -> S2 -> Prop.
Hypothesis R_random : forall s1 s2, R s1 s2 ->
  fst (random_ s1) = fst (random_ s2) /\ R (snd (random_ s1)) (snd (random_ s2)).
Hypothesis R_randbelow : forall n s1 s2, R s1 s2 ->
  fst (randbelow n s1) = fst (randbelow n s2) /\ R (snd (randbelow n s1)) (snd (randbelow n s2)).

Lemma rel_ret {A} (a : A) : rel_M R (ret a) (ret a).
Proof. intros s1 s2 HR. simpl. auto. Qed.

Lemma rel_raise {A} e : rel_M R (A := A) (raise e) (raise e).
Proof. intros s1 s2 HR. reflexivity. Qed.

Lemma rel_bind {A B} (m1 : M S1 A) m2 (f1 : A -> M S1 B) f2 :
  rel_M R m1 m2 -> (forall a, rel_M R (f1 a) (f2 a)) -> rel_M R (bind m1 f1) (bind m2 f2).
Proof.
  intros Hm Hf s1 s2 HR. unfold bind. specialize (Hm s1 s2 HR).
  destruct (m1 s1) as [e1|[a1 t1]], (m2 s2) as [e2|[a2 t2]]; simpl in Hm; try contradiction.
  - exact Hm.
  - destruct Hm as [<- Ht]. apply Hf, Ht.
Qed.

Lemma rel_py_random : rel_M R py_random py_random.
Proof.
  intros s1 s2 HR. unfold py_random. simpl. destruct (R_random _ _ HR) as [E Ht].
  destruct (random_ s1), (random_ s2). simpl in *. auto.
Qed.

Lemma rel_rand_below n : rel_M R (rand_below n) (rand_below n).
Proof.
  intros s1 s2 HR. unfold rand_below. simpl. destruct (R_randbelow n _ _ HR) as [E Ht].
  destruct (randbelow n s1), (randbelow n s2). simpl in *. auto.
Qed.

Lemma rel_random_lt p : rel_M R (random_lt p) (random_lt p).
Proof. apply rel_bind; [apply rel_py_random | intros; apply rel_ret]. Qed.

Lemma rel_py_getitem {A} (xs : list A) i : rel_M R (py_getitem xs i) (py_getitem xs i).
Proof.
  unfold py_getitem. destruct (py_index xs i); [destruct (nth_error xs n)|];
  auto using rel_ret, rel_raise.
Qed.

Lemma rel_py_setitem {A} (xs : list A) i x : rel_M R (py_setitem xs i x) (py_setitem xs i x).
Proof. unfold py_setitem. destruct (py_index xs i); auto using rel_ret, rel_raise. Qed.

Lemma rel_py_pop0 {A} (xs : list A) : rel_M R (py_pop0 xs) (py_pop0 xs).
Proof. unfold py_pop0. destruct xs; auto using rel_ret, rel_raise. Qed.

Lemma rel_choice {A} (xs : list A) : rel_M R (choice xs) (choice xs).
Proof.
  unfold choice. destruct xs; [apply rel_raise|].
  apply rel_bind; [apply rel_rand_below | intros; apply rel_py_getitem].
Qed.

Lemma rel_randint a b : rel_M R (randint a b) (randint a b).
Proof.
  unfold randint. destruct (0 <? _); [|apply rel_raise].
  apply rel_bind; [apply rel_rand_below | intros; apply rel_ret].
Qed.

Ltac rel_tac :=
  repeat first
    [ match goal with |- forall _, _ => intro end
    | progress cbv zeta
    | apply rel_random_lt | apply rel_choice | apply rel_randint | apply rel_rand_below
    | apply rel_py_getitem | apply rel_py_setitem | apply rel_py_pop0
    | apply rel_ret | apply rel_raise
    | apply rel_bind
    | match goal with
      | |- rel_M _ (if ?c then _ else _) _ => destruct c
      | |- rel_M _ (match ?l with [] => _ | _ :: _ => _ end) _ => destruct l
      end ].

Lemma rel_maybe_wrong_count t : rel_M R (maybe_wrong_count t) (maybe_wrong_count t).
Proof. unfold maybe_wrong_count. rel_tac. Qed.

Lemma rel_mk_rough_draft cfg v r b : rel_M R (mk_rough_draft cfg v r b) (mk_rough_draft cfg v r b).
Proof. unfold mk_rough_draft, py_iadd_item. rel_tac; apply rel_maybe_wrong_count. Qed.

End RelatedLemmas.

(** ** Text facts *)

Lemma in_strip_ws c s : In c (strip_ws s) -> In c s.
Proof. unfold strip_ws. rewrite filter_In. tauto. Qed.

Lemma substr_single c s : In c s -> substr [c] s.
Proof. intros Hc. apply in_split in Hc as [a [b ->]]. exists a, b. reflexivity. Qed.

Lemma step_omit_awards {St} {HR : RandomSource St} cfg b b' :
  (key_awards b = [] <-> key_awards b' = []) -> step_omit cfg b = step_omit cfg b'.
Proof.
  unfold step_omit. intros H.
  destruct (key_awards b), (key_awards b'); try reflexivity;
  exfalso; [destruct H as [H _] | destruct H as [_ H]]; discriminate H; reflexivity.
Qed.

Lemma fake_awards_not_real :
  forallb (fun a => forallb (fun a' => negb (substrb a' a)) (AWARD_POOL default_config))
    FAKE_AWARDS = true.
Proof. vm_compute. reflexivity. Qed.

(* ------------------------------------------------------------------ *)
(** ** Lines of [textwrap.fill] *)

Lemma py_split_nonnil sep s : py_split sep s <> [].
Proof.
  induction s as [|c s IH]; simpl; [discriminate|].
  destruct (c =? sep); [discriminate|]. destruct (py_split sep s); discriminate.
Qed.

Lemma py_split_app sep a b : py_split sep (a ++ sep :: b) = py_split sep a ++ py_split sep b.
Proof.
  induction a as [|c a IH]; simpl.
  - rewrite Z.eqb_refl. reflexivity.
  - rewrite IH. destruct (c =? sep); [reflexivity|].
    destruct (py_split sep a) as [|l ls] eqn:E; [exfalso; exact (py_split_nonnil _ _ E)|].
    reflexivity.
Qed.

Lemma py_split_no_sep sep a : ~ In sep a -> py_split sep a = [a].
Proof.
  induction a as [|c a IH]; intros H; simpl; [reflexivity|].
  destruct (c =? sep) eqn:E.
  - apply Z.eqb_eq in E. subst. exfalso; apply H; left; reflexivity.
  - rewrite IH by (intros Hin; apply H; right; exact Hin). reflexivity.
Qed.

Lemma forall_split_nl_seps (P : ustr -> Prop) sep b :
  (forall c, In c sep -> c = 10) -> P [] -> Forall P (py_split 10 b) ->
  Forall P (py_split 10 (sep ++ b)).
Proof.
  intros Hs HP Hb. induction sep as [|c sep IH]; [exact Hb|].
  rewrite (Hs c (or_introl eq_refl)). simpl.
  constructor; [exact HP|]. apply IH. intros d Hd. apply Hs. right; exact Hd.
Qed.

Lemma forall_split_join (P : ustr -> Prop) sep xs :
  (forall c, In c sep -> c = 10) -> sep <> [] -> P [] ->
  Forall (fun x => Forall P (py_split 10 x)) xs ->
  Forall P (py_split 10 (join sep xs)).
Proof.
  intros Hs Hne HP Hxs. induction Hxs as [|x xs Hx Hxs IH]; [simpl; constructor; auto|].
  destruct xs as [|y ys]; [exact Hx|].
  change (join sep (x :: y :: ys)) with (x ++ sep ++ join sep (y :: ys)).
  destruct sep as [|c sep']; [congruence|].
  assert (Hc : c = 10) by (apply Hs; left; reflexivity). subst c.
  cbn [app]. rewrite py_split_app.
  apply Forall_app. split; [exact Hx|].
  apply forall_split_nl_seps; auto. intros d Hd. apply Hs. right; exact Hd.
Qed.

(** ** Line lengths of [textwrap] *)

Lemma take_fitting_len w c chunks line l rest :
  take_fitting w c chunks = (line, l, rest) ->
  Z.of_nat (length (concat line)) + c = l /\ (c <= w -> l <= w).
Proof.
  revert c line l rest; induction chunks as [|ch chunks IH]; intros c line l rest H; simpl in H.
  - injection H as <- <- _. simpl. lia.
  - destruct (c + ulen ch <=? w) eqn:E.
    + apply Z.leb_le in E.
      destruct (take_fitting w (c + ulen ch) chunks) as [[line' l'] rest'] eqn:E'.
      injection H as <- <- _. apply IH in E' as [E1 E2]. simpl.
      rewrite length_app. unfold ulen in *. split; [lia | intros; apply E2; lia].
    + injection H as <- <- _. simpl. lia.
Qed.

Lemma fold_index_result (f : nat -> bool) l acc :
  fold_left (fun acc i => if f i then Z.of_nat i else acc) l acc = acc \/
  exists i, In i l /\
    fold_left (fun acc i => if f i then Z.of_nat i else acc) l acc = Z.of_nat i.
Proof.
  revert acc; induction l as [|i l IH]; intros acc; simpl; [auto|].
  destruct (IH (if f i then Z.of_nat i else acc)) as [E|[j [Hj E]]].
  - rewrite E. destruct (f i); [right; exists i; auto | auto].
  - right. exists j. auto.
Qed.

Lemma rfind_hyphen_bound chunk k :
  rfind_hyphen chunk k = -1 \/ 0 <= rfind_hyphen chunk k < k.
Proof.
  unfold rfind_hyphen.
  destruct (fold_index_result (fun i => nth i chunk 0 =? HYPHEN)
              (seq 0 (Z.to_nat (Z.min k (ulen chunk)))) (-1)) as [E|[i [Hi E]]].
  - left. exact E.
  - right. rewrite E. apply in_seq in Hi. unfold ulen in Hi. lia.
Qed.

Lemma handle_long_word_len ch c w :
  1 <= w -> 0 <= c <= w ->
  Z.of_nat (length (fst (handle_long_word ch c w))) <= w - c.
Proof.
  intros Hw Hc. unfold handle_long_word. cbn zeta.
  destruct (w <? 1) eqn:E1; [apply Z.ltb_lt in E1; lia|]. cbn [fst].
  rewrite length_firstn.
  destruct (rfind_hyphen_bound ch (w - c)) as [Eh|Eh].
  - rewrite Eh. cbn [Z.gtb Z.compare]. rewrite andb_false_r. simpl. lia.
  - destruct (_ && _ && _); lia.
Qed.

Lemma forall_handle_long_word (P : Z -> Prop) ch c w :
  Forall P ch -> Forall P (fst (handle_long_word ch c w)) /\
                 Forall P (snd (handle_long_word ch c w)).
Proof.
  intros H. pose proof (handle_long_word_app ch c w) as E.
  rewrite <- E in H. apply Forall_app in H. exact H.
Qed.

Lemma drop_trailing_blank_sub line :
  (length (concat (drop_trailing_blank line)) <= length (concat line))%nat /\
  incl (drop_trailing_blank line) line.
Proof.
  unfold drop_trailing_blank.
  destruct (rev line) as [|x r] eqn:E; [split; [lia | apply incl_refl]|].
  destruct (is_blank x); [|split; [lia | apply incl_refl]].
  assert (Hl : line = rev r ++ [x]).
  { rewrite <- (rev_involutive line), E; reflexivity. }
  rewrite Hl, removelast_last, concat_app, length_app. split; [lia|].
  apply incl_appl, incl_refl.
Qed.

Lemma nonl_concat xs : Forall nonl xs -> nonl (concat xs).
Proof.
  intros H Hin. apply in_concat in Hin as [x [Hx Hin]].
  rewrite Forall_forall in H. exact (H x Hx Hin).
Qed.

(** Every line [_wrap_chunks] emits fits in the width and holds no
    newline, when no chunk holds one. *)
Lemma wrap_chunks_lines fuel w b chunks :
  1 <= w -> Forall nonl chunks ->
  Forall (fun l => Z.of_nat (length l) <= w /\ nonl l) (wrap_chunks fuel w b chunks).
Proof.
  intros Hw. revert b chunks. induction fuel as [|fuel IH]; intros b chunks Hc; [constructor|].
  destruct chunks as [|first others]; [constructor|].
  cbn [wrap_chunks].
  set (chunks1 := if b && is_blank first then others else first :: others).
  assert (Hc1 : Forall nonl chunks1).
  { unfold chunks1. destruct (_ && _); [inversion Hc; auto | exact Hc]. }
  destruct (take_fitting w 0 chunks1) as [[line cur_len] rest] eqn:Ht.
  pose proof (take_fitting_app _ _ _ _ _ _ Ht) as Happ.
  apply take_fitting_len in Ht as [Hl1 Hl2]. specialize (Hl2 ltac:(lia)).
  rewrite <- Happ in Hc1. apply Forall_app in Hc1 as [Hline Hrest].
  assert (Hgo : forall line2 rest2,
    Z.of_nat (length (concat line2)) <= w -> Forall nonl line2 -> Forall nonl rest2 ->
    Forall (fun l => Z.of_nat (length l) <= w /\ nonl l)
      (match drop_trailing_blank line2 with
       | [] => wrap_chunks fuel w b rest2
       | _ => concat (drop_trailing_blank line2) :: wrap_chunks fuel w true rest2
       end)).
  { intros line2 rest2 H1 H2 H3. destruct (drop_trailing_blank_sub line2) as [D1 D2].
    destruct (drop_trailing_blank line2) as [|x xs] eqn:Ed; [apply IH; exact H3|].
    constructor; [|apply IH; exact H3]. split; [lia|].
    apply nonl_concat. rewrite Forall_forall in H2 |- *. intros y Hy. apply H2, D2, Hy. }
  destruct rest as [|ch rest']; [apply Hgo; auto; lia|].
  apply Forall_cons_iff in Hrest as [Hch Hrest'].
  destruct (ulen ch >? w) eqn:Hlong; [|apply Hgo; auto; lia].
  destruct (handle_long_word ch cur_len w) as [piece rem] eqn:Hh.
  pose proof (handle_long_word_len ch cur_len w Hw ltac:(lia)) as Hp. rewrite Hh in Hp.
  assert (Hpr : nonl piece /\ nonl rem).
  { unfold nonl. split; intros Hin.
    - assert (In 10 (fst (handle_long_word ch cur_len w))) by (rewrite Hh; exact Hin).
      apply Hch. rewrite <- (handle_long_word_app ch cur_len w). apply in_or_app. auto.
    - assert (In 10 (snd (handle_long_word ch cur_len w))) by (rewrite Hh; exact Hin).
      apply Hch. rewrite <- (handle_long_word_app ch cur_len w). apply in_or_app. auto. }
  apply Hgo.
  - rewrite concat_app, length_app. simpl. rewrite app_nil_r. simpl in Hp. lia.
  - apply Forall_app. split; [exact Hline | constructor; [apply Hpr | constructor]].
  - constructor; [apply Hpr | exact Hrest'].
Qed.

Lemma munge_nonl t : nonl (munge_whitespace t).
Proof.
  unfold nonl, munge_whitespace. intros Hin. apply in_map_iff in Hin as [c [Hc _]].
  destruct (tw_ws c) eqn:E; [discriminate|]. subst c. discriminate.
Qed.

Lemma split_chunks_nonl t : Forall nonl (split_chunks t).
Proof.
  apply Forall_forall. intros x Hx Hin. apply (munge_nonl t).
  rewrite <- concat_split_chunks. apply in_concat. eauto.
Qed.

(** [textwrap.fill]: every line has at most [width] code points. *)
Lemma fill_lines_within t w :
  1 <= w -> Forall (fun l => Z.of_nat (length l) <= w) (py_split 10 (fill t w)).
Proof.
  intros Hw. unfold fill.
  pose proof (wrap_chunks_lines (S (wrap_measure (split_chunks t))) w false _ Hw
                (split_chunks_nonl t)) as H.
  fold (wrap t w) in H.
  apply forall_split_join; [intros c [<-|[]]; reflexivity | discriminate | simpl; lia|].
  rewrite Forall_forall in H |- *. intros x Hx. destruct (H x Hx) as [H1 H2].
  rewrite py_split_no_sep by exact H2. constructor; [exact H1 | constructor].
Qed.

Lemma succ_ret {St A} (a : A) (Q : A -> Prop) : Q a -> succeeds (St:=St) (ret a) Q.
Proof. intros HQ s. exists a, s. auto. Qed.

Lemma succ_bind {St A B} (m : M St A) (f : A -> M St B) P Q :
  succeeds m P -> (forall a, P a -> succeeds (f a) Q) -> succeeds (bind m f) Q.
Proof.
  intros Hm Hf s. destruct (Hm s) as [a [s1 [E Pa]]].
  destruct (Hf a Pa s1) as [b [s2 [E2 Qb]]]. exists b, s2. unfold bind. rewrite E. auto.
Qed.

Lemma succ_bind_inl {St A B} (m : M St A) (f : A -> M St B) P s e :
  succeeds m P -> bind m f s = inl e -> exists a s', P a /\ f a s' = inl e.
Proof.
  intros Hm H. destruct (Hm s) as [a [s1 [E Pa]]]. unfold bind in H. rewrite E in H. eauto.
Qed.

Lemma succ_weaken {St A} (m : M St A) (P Q : A -> Prop) :
  succeeds m P -> (forall a, P a -> Q a) -> succeeds m Q.
Proof. intros H HPQ s. destruct (H s) as [a [s' [E Pa]]]. eauto. Qed.

Lemma succ_random_lt {St} {HR : RandomSource St} p :
  succeeds (random_lt p) (fun _ => True).
Proof. intros s. unfold random_lt, py_random, bind, ret. destruct (random_ s). eauto. Qed.

Lemma succ_getitem {St A} (xs : list A) j :
  0 <= j < Z.of_nat (length xs) ->
  succeeds (St:=St) (py_getitem xs j) (fun x => nth_error xs (Z.to_nat j) = Some x).
Proof.
  intros Hj s. destruct (nth_error xs (Z.to_nat j)) as [x|] eqn:E.
  - exists x, s. split; [apply py_getitem_ok; auto; lia | reflexivity].
  - apply nth_error_None in E. lia.
Qed.

Lemma succ_setitem {St A} (xs : list A) j y :
  0 <= j < Z.of_nat (length xs) ->
  succeeds (St:=St) (py_setitem xs j y) (fun xs' => xs' = list_set xs (Z.to_nat j) y).
Proof. intros Hj s. exists (list_set xs (Z.to_nat j) y), s. rewrite py_setitem_ok by lia. auto. Qed.

Lemma py_setitem_neg1 {St A} (xs : list A) y (s : St) :
  xs <> [] -> py_setitem xs (-1) y s = inr (list_set xs (length xs - 1) y, s).
Proof.
  intros Hne. unfold py_setitem, py_index. cbn zeta.
  assert (Hl : (0 < length xs)%nat) by (destruct xs; [congruence | simpl; lia]).
  replace (if -1 <? 0 then Z.of_nat (length xs) + -1 else -1)
    with (Z.of_nat (length xs) - 1) by reflexivity.
  replace ((0 <=? Z.of_nat (length xs) - 1) && (Z.of_nat (length xs) - 1 <? Z.of_nat (length xs)))
    with true by (symmetry; apply andb_true_iff; split; [apply Z.leb_le | apply Z.ltb_lt]; lia).
  unfold ret. repeat f_equal. lia.
Qed.

Section SuccOk.
Context {St : Type} {HR : RandomSource St} {HO : RandomSourceOk St}.

Lemma succ_rand_below n : 0 < n -> succeeds (rand_below n) (fun j => 0 <= j < n).
Proof.
  intros Hn s. unfold rand_below. pose proof (randbelow_range n s Hn).
  destruct (randbelow n s) as [j s'] eqn:E. exists j, s'. auto.
Qed.

Lemma succ_choice {A} (xs : list A) : xs <> [] -> succeeds (choice xs) (fun x => In x xs).
Proof.
  intros Hne. unfold choice. destruct xs as [|y ys]; [congruence|].
  apply (succ_bind _ _ (fun j => 0 <= j < Z.of_nat (length (y :: ys)))).
  - apply succ_rand_below. simpl. lia.
  - intros j Hj. eapply succ_weaken; [apply succ_getitem; exact Hj|].
    intros x Hx. eapply nth_error_In. exact Hx.
Qed.

Lemma succ_randint a b : a <= b -> succeeds (randint a b) (fun v => a <= v <= b).
Proof.
  intros Hab. unfold randint. destruct (0 <? b + 1 - a) eqn:E; [|apply Z.ltb_ge in E; lia].
  apply (succ_bind _ _ (fun j => 0 <= j < b + 1 - a)); [apply succ_rand_below; lia|].
  intros j Hj. apply succ_ret. lia.
Qed.

Lemma succ_sample_pool {A} n i k (pool : list A) :
  Z.of_nat (length pool) = n -> 0 <= i -> Z.of_nat k <= n - i ->
  succeeds (sample_pool n i k pool) (fun xs => length xs = k).
Proof.
  revert i pool. induction k as [|k IH]; intros i pool Hl Hi Hk; cbn [sample_pool].
  - apply succ_ret. reflexivity.
  - apply (succ_bind _ _ (fun j => 0 <= j < n - i)); [apply succ_rand_below; lia|].
    intros j Hj. apply (succ_bind _ _ (fun _ => True));
      [eapply succ_weaken; [apply succ_getitem; lia | auto]|]. intros x _.
    apply (succ_bind _ _ (fun _ => True));
      [eapply succ_weaken; [apply succ_getitem; lia | auto]|]. intros y _.
    apply (succ_bind _ _ (fun p => Z.of_nat (length p) = n));
      [eapply succ_weaken; [apply succ_setitem; lia|]; intros p ->; rewrite length_list_set; exact Hl|].
    intros p Hp. apply (succ_bind _ _ (fun xs => length xs = k)); [apply IH; lia|].
    intros xs Hxs. apply succ_ret. simpl. lia.
Qed.

Lemma succ_sample {A} (pop : list A) k :
  0 <= k <= Z.of_nat (length pop) -> (length pop <= 21)%nat ->
  succeeds (sample pop k) (fun xs => length xs = Z.to_nat k).
Proof.
  intros Hk Hn. unfold sample.
  replace (negb ((0 <=? k) && (k <=? Z.of_nat (length pop)))) with false
    by (symmetry; apply negb_false_iff, andb_true_iff; split; apply Z.leb_le; lia).
  replace (Z.of_nat (length pop) <=? 21 + (if 5 <? k then 4 ^ ceil_log4 (k * 3) else 0))
    with true.
  - apply succ_sample_pool; lia.
  - symmetry. apply Z.leb_le. destruct (5 <? k); [|lia].
    assert (0 <= 4 ^ ceil_log4 (k * 3)) by (apply Z.pow_nonneg; lia). lia.
Qed.

End SuccOk.

Lemma bind_inl {St A B} (m : M St A) (f : A -> M St B) s e :
  bind m f s = inl e -> m s = inl e \/ exists a s', m s = inr (a, s') /\ f a s' = inl e.
Proof. unfold bind. destruct (m s) as [e'|[a s']]; intros H; [left; congruence | right; eauto]. Qed.

Lemma succ_not_inl {St A} (m : M St A) Q s e : succeeds m Q -> m s <> inl e.
Proof. intros H E. destruct (H s) as [a [s' [E' _]]]. congruence. Qed.

Lemma ueqb_true a b : ueqb a b = true -> a = b.
Proof. unfold ueqb. destruct (list_eq_dec Z.eq_dec a b); [auto | discriminate]. Qed.

Lemma ueqb_false a b : a <> b -> ueqb a b = false.
Proof. unfold ueqb. destruct (list_eq_dec Z.eq_dec a b); [contradiction | reflexivity]. Qed.

Lemma length_drop_last {A} (xs : list A) : length (drop_last xs) = (length xs - 1)%nat.
Proof. unfold drop_last. rewrite length_firstn. lia. Qed.

Section SuccSynthesis.
Context {St : Type} {HR : RandomSource St} {HO : RandomSourceOk St}.
Variable cfg : config.

Lemma succ_choice_no_replacement pool k :
  0 <= k -> (length pool <= 21)%nat -> succeeds (choice_no_replacement pool k) (fun _ => True).
Proof.
  intros Hk Hl. eapply succ_weaken; [apply succ_sample; [lia | exact Hl]|]. auto.
Qed.

Lemma succ_mk_beneficiary i :
  FIELDS cfg <> [] ->
  fst (PUB_RANGE cfg) <= snd (PUB_RANGE cfg) ->
  fst (CITATION_RANGE cfg) <= snd (CITATION_RANGE cfg) ->
  (length (AWARD_POOL cfg) <= 21)%nat -> (length (VENUE_POOL cfg) <= 21)%nat ->
  succeeds (mk_beneficiary cfg i) (fun _ => True).
Proof.
  intros Hf Hp Hc Ha Hv. unfold mk_beneficiary.
  eapply succ_bind; [apply succ_choice; exact Hf|]. intros f _.
  eapply succ_bind; [apply succ_randint; exact Hp|]. intros p _.
  eapply succ_bind; [apply succ_randint; exact Hc|]. intros c _.
  eapply succ_bind; [apply (succ_randint 0 2); lia|]. intros ka Hka. cbv beta in Hka.
  eapply succ_bind; [apply succ_choice_no_replacement; [lia | exact Ha]|]. intros aw _.
  eapply succ_bind; [apply (succ_randint 1 3); lia|]. intros kv Hkv. cbv beta in Hkv.
  eapply succ_bind; [apply succ_choice_no_replacement; [lia | exact Hv]|]. intros ve _.
  apply succ_ret. exact I.
Qed.

Lemma succ_mk_recommender i :
  ORG_POOL cfg <> [] -> TITLE_POOL cfg <> [] ->
  succeeds (mk_recommender cfg i)
    (fun r => In (affiliation r) (ORG_POOL cfg) /\ In (title r) (TITLE_POOL cfg) /\
              full_name r = u"Dr. Jordan " ++ py_str i).
Proof.
  intros Ho Ht. unfold mk_recommender.
  eapply succ_bind; [apply succ_choice; exact Ho|]. intros a Ha.
  eapply succ_bind; [apply succ_choice; exact Ht|]. intros t Ht'.
  apply succ_ret. simpl. auto.
Qed.

(** the steps of the rough draft, and the lengths of the chunk lists they
    keep *)
Lemma succ_step_visa_mention v c :
  c <> [] -> succeeds (step_visa_mention cfg v c) (fun c' => length c' = length c).
Proof.
  intros Hc. unfold step_visa_mention.
  eapply succ_bind; [apply succ_random_lt|]. intros weak _ s.
  rewrite py_setitem_neg1 by exact Hc. eexists _, s. split; [reflexivity|].
  apply length_list_set.
Qed.

Lemma succ_step_omit b c :
  (2 <= length c)%nat -> succeeds (step_omit cfg b c) (fun c' => length c' = length c).
Proof.
  intros Hc. unfold step_omit.
  eapply succ_bind; [apply succ_random_lt|]. intros [|] _; [|apply succ_ret; reflexivity].
  eapply succ_bind.
  - instantiate (1 := fun _ => True). destruct (key_awards b);
      [apply succ_ret; exact I | apply succ_random_lt].
  - intros d _. eapply succ_weaken; [apply succ_setitem; lia|].
    intros c' ->. apply length_list_set.
Qed.

Lemma succ_py_iadd_item c suffix :
  (2 <= length c)%nat -> succeeds (py_iadd_item (St:=St) c 1 suffix) (fun c' => length c' = length c).
Proof.
  intros Hc. unfold py_iadd_item.
  eapply succ_bind; [apply succ_getitem; lia|]. intros x _.
  eapply succ_weaken; [apply succ_setitem; lia|]. intros c' ->. apply length_list_set.
Qed.

Lemma succ_maybe_wrong_count v : succeeds (maybe_wrong_count (St:=St) v) (fun _ => True).
Proof.
  unfold maybe_wrong_count.
  eapply succ_bind; [apply (succ_randint 5 20); lia|]. intros d _.
  eapply succ_bind; [apply succ_choice; discriminate|]. intros sg _.
  apply succ_ret. exact I.
Qed.

Lemma succ_step_count b c :
  (2 <= length c)%nat -> succeeds (step_count cfg b c) (fun c' => length c' = length c).
Proof.
  intros Hc. unfold step_count.
  eapply succ_bind; [apply succ_random_lt|]. intros wrong _.
  eapply succ_bind.
  - instantiate (1 := fun _ => True). destruct wrong;
      [apply succ_maybe_wrong_count | apply succ_ret; exact I].
  - intros n _. apply succ_py_iadd_item. exact Hc.
Qed.

Lemma succ_step_hallucination c :
  (2 <= length c)%nat -> succeeds (step_hallucination cfg c) (fun c' => length c' = length c).
Proof.
  intros Hc. unfold step_hallucination.
  eapply succ_bind; [apply succ_random_lt|]. intros [|] _; [|apply succ_ret; reflexivity].
  eapply succ_bind; [apply succ_choice; discriminate|]. intros f _.
  apply succ_py_iadd_item. exact Hc.
Qed.

Lemma succ_step_style c :
  succeeds (step_style cfg c) (fun c' => (length c <= length c')%nat).
Proof.
  unfold step_style. eapply succ_bind; [apply succ_random_lt|]. intros [|] _;
    apply succ_ret; simpl; lia.
Qed.

Lemma succ_step_section c :
  (3 <= length c)%nat -> succeeds (step_section cfg c) (fun c' => (2 <= length c')%nat).
Proof.
  intros Hc. unfold step_section.
  eapply succ_bind; [apply succ_random_lt|]. intros [|] _; [|apply succ_ret; lia].
  eapply succ_bind; [apply succ_random_lt|]. intros coin _.
  destruct (coin && (2 <? Z.of_nat (length c))) eqn:E.
  - apply andb_true_iff in E as [_ E]. apply Z.ltb_lt in E.
    destruct c as [|x c']; [simpl in Hc; lia|]. apply succ_ret. simpl in *. lia.
  - apply succ_ret. rewrite length_drop_last. lia.
Qed.

Lemma succ_step_finish c : succeeds (step_finish (St:=St) c) (fun _ => True).
Proof.
  unfold step_finish. eapply succ_bind; [apply succ_random_lt|]. intros p _.
  apply succ_ret. exact I.
Qed.

(** The one way [mk_rough_draft] fails: the misnaming step draws from the
    visa categories other than [visa_type], and there are none. *)
Lemma mk_rough_draft_inl v r b s e :
  mk_rough_draft cfg v r b s = inl e ->
  e = IndexError /\ forall w, In w (VISA_TYPES cfg) -> w = v.
Proof.
  rewrite mk_rough_draft_steps. unfold rough_steps. intros H.
  apply (succ_bind_inl _ _ _ _ _ (succ_step_visa_mention v (rough_chunks b) ltac:(discriminate)))
    in H as [c1 [s1 [H1 H]]]. cbv beta in H1. unfold rough_chunks in H1. simpl in H1.
  apply (succ_bind_inl _ _ _ _ _ (succ_step_omit b c1 ltac:(lia)))
    in H as [c2 [s2 [H2 H]]]. cbv beta in H2.
  apply (succ_bind_inl _ _ _ _ _ (succ_step_count b c2 ltac:(lia)))
    in H as [c3 [s3 [H3 H]]]. cbv beta in H3.
  apply (succ_bind_inl _ _ _ _ _ (succ_step_hallucination c3 ltac:(lia)))
    in H as [c4 [s4 [H4 H]]]. cbv beta in H4.
  apply (succ_bind_inl _ _ _ _ _ (succ_step_style c4)) in H as [c5 [s5 [H5 H]]]. cbv beta in H5.
  apply (succ_bind_inl _ _ _ _ _ (succ_step_section c5 ltac:(lia)))
    in H as [c6 [s6 [H6 H]]]. cbv beta in H6.
  apply bind_inl in H as [H|[c7 [s7 [_ H]]]];
    [|exfalso; exact (succ_not_inl _ _ _ _ (succ_step_finish c7) H)].
  unfold step_misname in H.
  apply bind_inl in H as [H|[m [s7 [_ H]]]];
    [exfalso; exact (succ_not_inl _ _ _ _ (succ_random_lt _) H)|].
  destruct m; [|discriminate].
  set (others := filter (fun w => negb (ueqb w v)) (VISA_TYPES cfg)) in H.
  apply bind_inl in H as [H|[w [s8 [_ H]]]].
  - destruct others as [|o os] eqn:Eo.
    + split; [injection H; auto|]. intros w Hw.
      destruct (ueqb w v) eqn:Ew; [apply ueqb_true; exact Ew|].
      assert (Hin : In w others) by (apply filter_In; rewrite Ew; auto).
      rewrite Eo in Hin. destruct Hin.
    + exfalso. exact (succ_not_inl _ _ _ _ (succ_choice (o :: os) ltac:(discriminate)) H).
  - rewrite py_setitem_neg1 in H by (destruct c6; [simpl in H6; lia | discriminate]).
    discriminate.
Qed.

Lemma succ_mk_rough_draft v r b :
  (exists w, In w (VISA_TYPES cfg) /\ w <> v) ->
  succeeds (mk_rough_draft cfg v r b) (fun _ => True).
Proof.
  intros [w [Hw Hne]] s. destruct (mk_rough_draft cfg v r b s) as [e|[d s']] eqn:E.
  - apply mk_rough_draft_inl in E as [_ E]. exfalso. exact (Hne (E w Hw)).
  - exists d, s'. auto.
Qed.

End SuccSynthesis.
Lemma ueqb_spec a b : ueqb a b = true <-> a = b.
Proof. unfold ueqb. destruct (list_eq_dec Z.eq_dec a b); split; congruence. Qed.

Lemma ueqb_sym a b : ueqb a b = ueqb b a.
Proof. unfold ueqb. destruct (list_eq_dec Z.eq_dec a b), (list_eq_dec Z.eq_dec b a); congruence. Qed.

Lemma dict_get_set d k v k' :
  dict_get (dict_set d k v) k' 0 = if ueqb k k' then v else dict_get d k' 0.
Proof.
  induction d as [|[k0 v0] d IH]; simpl.
  - destruct (ueqb k k'); reflexivity.
  - destruct (ueqb k0 k) eqn:E1; simpl.
    + apply ueqb_spec in E1. subst k0. destruct (ueqb k k'); reflexivity.
    + rewrite IH. destruct (ueqb k0 k') eqn:E2; [|reflexivity].
      apply ueqb_spec in E2. subst k0. rewrite ueqb_sym, E1. reflexivity.
Qed.

Lemma keys_dict_set d k v :
  map fst (dict_set d k v) = if existsb (fun k' => ueqb k' k) (map fst d)
                             then map fst d else map fst d ++ [k].
Proof.
  induction d as [|[k0 v0] d IH]; simpl; [reflexivity|].
  destruct (ueqb k0 k); simpl; [reflexivity|]. rewrite IH.
  destruct (existsb _ _); reflexivity.
Qed.

Lemma dict_sum_set d k v :
  dict_sum (dict_set d k v) = dict_sum d - dict_get d k 0 + v.
Proof.
  unfold dict_sum. induction d as [|[k0 v0] d IH]; simpl; [lia|].
  destruct (ueqb k0 k); simpl; [lia|]. rewrite IH. lia.
Qed.

Lemma in_keys_get d k : ~ In k (map fst d) -> dict_get d k 0 = 0.
Proof.
  induction d as [|[k0 v0] d IH]; simpl; intros Hn; [reflexivity|].
  destruct (ueqb k0 k) eqn:E; [apply ueqb_spec in E; tauto | apply IH; tauto].
Qed.

Lemma vis_counts_go rows d :
  NoDup (map fst d) ->
  let d' := fold_left (fun d r => dict_set d (visa_type r) (dict_get d (visa_type r) 0 + 1)) rows d in
  NoDup (map fst d') /\
  (forall k, In k (map fst d') <-> In k (map fst d) \/ exists r, In r rows /\ visa_type r = k) /\
  (forall k, dict_get d' k 0 = dict_get d k 0 + Z.of_nat (count_visa rows k)) /\
  dict_sum d' = dict_sum d + Z.of_nat (length rows).
Proof.
  revert d. induction rows as [|r rows IH]; intros d Hnd; cbn zeta; simpl fold_left.
  - repeat split; auto.
    + intros [H|[x [[] _]]]; exact H.
    + intros k. unfold count_visa. simpl. lia.
    + simpl. lia.
  - set (d1 := dict_set d (visa_type r) (dict_get d (visa_type r) 0 + 1)).
    assert (Hnd1 : NoDup (map fst d1)).
    { unfold d1. rewrite keys_dict_set. destruct (existsb _ _) eqn:E; [exact Hnd|].
      apply NoDup_app; [exact Hnd | constructor; [intros []|constructor] |].
      intros x Hx [Ex|[]]. subst x. assert (Hc : existsb (fun k' => ueqb k' (visa_type r)) (map fst d) = true).
      { apply existsb_exists. exists (visa_type r). split; [exact Hx | apply ueqb_spec; reflexivity]. }
      congruence. }
    destruct (IH d1 Hnd1) as [H1 [H2 [H3 H4]]]. split; [|split; [|split]].
    + exact H1.
    + intros k. split.
      * intros Hk. apply H2 in Hk as [Hk|[x [Hx Ex]]];
          [|right; exists x; split; [right; exact Hx | exact Ex]].
        unfold d1 in Hk. rewrite keys_dict_set in Hk. destruct (existsb _ _); [left; exact Hk|].
        apply in_app_or in Hk as [Hk|[<-|[]]];
          [left; exact Hk | right; exists r; split; [left|]; reflexivity].
      * intros Hk. apply H2. destruct Hk as [Hk|[x [[<-|Hx] Ex]]].
        -- left. unfold d1. rewrite keys_dict_set. destruct (existsb _ _); [auto|].
           apply in_or_app; auto.
        -- left. unfold d1. rewrite keys_dict_set. subst k.
           destruct (existsb _ _) eqn:E; [|apply in_or_app; right; left; reflexivity].
           apply existsb_exists in E as [y [Hy Ey]]. apply ueqb_spec in Ey. subst y. exact Hy.
        -- right. exists x. auto.
    + intros k. rewrite H3. unfold d1. rewrite dict_get_set. unfold count_visa. simpl.
      rewrite (ueqb_sym (visa_type r) k).
      destruct (ueqb k (visa_type r)) eqn:E.
      * apply ueqb_spec in E. subst k. simpl. lia.
      * reflexivity.
    + rewrite H4. unfold d1. rewrite dict_sum_set. simpl. lia.
Qed.
Lemma first_occurrences_go_ext s1 s2 xs :
  (forall y, existsb (fun k => ueqb k y) s1 = existsb (fun k => ueqb k y) s2) ->
  first_occurrences_go s1 xs = first_occurrences_go s2 xs.
Proof.
  revert s1 s2. induction xs as [|x xs IH]; intros s1 s2 Hs; simpl; [reflexivity|].
  rewrite Hs. destruct (existsb _ s2); [apply IH; exact Hs|].
  f_equal. apply IH. intros y. simpl. rewrite Hs. reflexivity.
Qed.

Lemma keys_vis_counts_go rows d :
  map fst (fold_left (fun d r => dict_set d (visa_type r) (dict_get d (visa_type r) 0 + 1)) rows d)
  = map fst d ++ first_occurrences_go (map fst d) (map visa_type rows).
Proof.
  revert d. induction rows as [|r rows IH]; intros d; simpl; [rewrite app_nil_r; reflexivity|].
  rewrite IH, keys_dict_set.
  destruct (existsb (fun k' => ueqb k' (visa_type r)) (map fst d)); [reflexivity|].
  rewrite <- app_assoc. simpl. f_equal. f_equal.
  apply first_occurrences_go_ext. intros y. rewrite existsb_app. simpl.
  rewrite orb_false_r, orb_comm. reflexivity.
Qed.


Section RowsOk.
Context {St : Type} {HR : RandomSource St} {HO : RandomSourceOk St}.
Variable cfg : config.

Lemma mk_beneficiary_basic i s b s' :
  mk_beneficiary cfg i s = inr (b, s') ->
  In (field b) (FIELDS cfg) /\
  fst (PUB_RANGE cfg) <= pubs b <= snd (PUB_RANGE cfg) /\
  fst (CITATION_RANGE cfg) <= citations b <= snd (CITATION_RANGE cfg) /\
  name b = u"Dr. Alex " ++ py_str i.
Proof.
  intros H. unfold mk_beneficiary in H.
  do 7 (apply bind_inr in H as [? [? [? H]]]).
  apply ret_inr in H as [<- _]. cbn [pubs citations field name].
  split; [eapply choice_inr; eassumption|].
  split; [eapply randint_inr; eassumption|].
  split; [eapply randint_inr; eassumption | reflexivity].
Qed.

Lemma mk_recommender_basic i s r s' :
  mk_recommender cfg i s = inr (r, s') ->
  In (affiliation r) (ORG_POOL cfg) /\ In (title r) (TITLE_POOL cfg) /\
  full_name r = u"Dr. Jordan " ++ py_str i.
Proof.
  intros H. unfold mk_recommender in H.
  do 2 (apply bind_inr in H as [? [? [? H]]]).
  apply ret_inr in H as [<- _]. cbn [affiliation title full_name].
  split; [eapply choice_inr; eassumption|].
  split; [eapply choice_inr; eassumption | reflexivity].
Qed.

Lemma make_rows_loop_ok k i rows0 s rows s' :
  make_rows_loop cfg k i rows0 s = inr (rows, s') ->
  exists new, rows = rows0 ++ new /\ length new = k /\
  forall j row, nth_error new j = Some row ->
    let c := i + Z.of_nat j in
    case_id row = u"case_" ++ py_str c /\
    In (visa_type row) (VISA_TYPES cfg) /\
    exists b r s1 s2,
      beneficiary_data row = facts_to_string b /\
      recommender_data row = recommender_to_string r /\
      mk_rough_draft cfg (visa_type row) r b s1 = inr (rough_draft row, s2) /\
      final_draft row = mk_final_draft (visa_type row) r b /\
      name b = u"Dr. Alex " ++ py_str c /\ In (field b) (FIELDS cfg) /\
      fst (PUB_RANGE cfg) <= pubs b <= snd (PUB_RANGE cfg) /\
      fst (CITATION_RANGE cfg) <= citations b <= snd (CITATION_RANGE cfg) /\
      full_name r = u"Dr. Jordan " ++ py_str c /\
      In (affiliation r) (ORG_POOL cfg) /\ In (title r) (TITLE_POOL cfg).
Proof.
  revert i rows0 s. induction k as [|k IH]; intros i rows0 s H; cbn [make_rows_loop] in H.
  - apply ret_inr in H as [<- _]. exists []. rewrite app_nil_r.
    split; [reflexivity | split; [reflexivity|]]. intros [|j] row Hj; discriminate.
  - apply bind_inr in H as [visa [s1 [Hv H]]].
    apply bind_inr in H as [b [s2 [Hb H]]].
    apply bind_inr in H as [r [s3 [Hr H]]].
    apply bind_inr in H as [strs [s4 [Hs H]]].
    unfold build_strings in Hs. apply bind_inr in Hs as [rough [s5 [Hrough Hs]]].
    apply ret_inr in Hs as [<- _]. cbv iota beta in H.
    apply IH in H as [new [E [Hl Hnew]]].
    exists ({| case_id := u"case_" ++ py_str i; visa_type := visa;
               beneficiary_data := facts_to_string b;
               recommender_data := recommender_to_string r;
               rough_draft := rough; final_draft := mk_final_draft visa r b |} :: new).
    split; [rewrite E, <- app_assoc; reflexivity|]. split; [simpl; lia|].
    intros [|j] row Hj; cbn zeta.
    + injection Hj as <-. cbn [case_id visa_type beneficiary_data recommender_data
                                 rough_draft final_draft].
      apply choice_inr in Hv.
      apply mk_beneficiary_basic in Hb as [Hb1 [Hb2 [Hb3 Hb4]]].
      apply mk_recommender_basic in Hr as [Hr1 [Hr2 Hr3]].
      replace (i + Z.of_nat 0) with i by lia.
      split; [reflexivity | split; [exact Hv|]].
      exists b, r, s3, s5. split; [reflexivity|]. split; [reflexivity|]. split; [exact Hrough|]. repeat split; auto; lia.
    + simpl in Hj. apply Hnew in Hj. cbn zeta in Hj.
      replace (i + Z.of_nat (S j)) with (i + 1 + Z.of_nat j) by lia. exact Hj.
Qed.

Lemma succ_make_rows_loop k i rows0 :
  (exists v w, In v (VISA_TYPES cfg) /\ In w (VISA_TYPES cfg) /\ v <> w) ->
  FIELDS cfg <> [] ->
  fst (PUB_RANGE cfg) <= snd (PUB_RANGE cfg) ->
  fst (CITATION_RANGE cfg) <= snd (CITATION_RANGE cfg) ->
  (length (AWARD_POOL cfg) <= 21)%nat -> (length (VENUE_POOL cfg) <= 21)%nat ->
  ORG_POOL cfg <> [] -> TITLE_POOL cfg <> [] ->
  succeeds (make_rows_loop cfg k i rows0) (fun _ => True).
Proof.
  intros [v [w [Hv [Hw Hvw]]]] Hf Hp Hc Ha Hve Ho Ht.
  revert i rows0. induction k as [|k IH]; intros i rows0; cbn [make_rows_loop].
  - apply succ_ret. exact I.
  - eapply succ_bind; [apply succ_choice; destruct (VISA_TYPES cfg); [destruct Hv | discriminate]|].
    intros visa Hvisa.
    eapply succ_bind; [apply succ_mk_beneficiary; eauto|]. intros b _.
    eapply succ_bind; [apply succ_mk_recommender; eauto|]. intros r _.
    eapply succ_bind.
    + unfold build_strings. eapply succ_bind.
      * apply succ_mk_rough_draft.
        destruct (list_eq_dec Z.eq_dec visa v) as [->|Hne]; [exists w; auto | exists v; auto].
      * intros rough _. apply (succ_ret _ (fun _ => True)). exact I.
    + intros [[[x1 x2] x3] x4] _. apply IH.
Qed.

End RowsOk.

(* ------------------------------------------------------------------ *)
(** ** The misname gate after a dropped closing *)

Lemma substr_join_last sep xs x : substr x (join sep (xs ++ [x])).
Proof.
  induction xs as [|y ys IH]; [apply substr_refl|].
  destruct ys as [|z zs]; simpl.
  - apply substr_app_r, substr_app_r, substr_refl.
  - apply substr_app_r, substr_app_r. exact IH.
Qed.

Lemma py_getitem_in {St A} (xs : list A) j (s s' : St) x :
  py_getitem xs j s = inr (x, s') -> In x xs.
Proof.
  unfold py_getitem. destruct (py_index xs j); [|discriminate].
  destruct (nth_error xs n) eqn:E; [|discriminate].
  intros H. injection H as <- _. eapply nth_error_In. exact E.
Qed.

Lemma choice_in {St A} {HR : RandomSource St} (xs : list A) (s s' : St) x :
  choice xs s = inr (x, s') -> In x xs.
Proof.
  unfold choice. destruct xs as [|y ys]; [discriminate|]. intros H.
  apply bind_inr in H as [j [s1 [_ H]]]. eapply py_getitem_in. exact H.
Qed.

Lemma list_set_last {A} (l : list A) a y : list_set (l ++ [a]) (length l) y = l ++ [y].
Proof. induction l as [|x l IH]; simpl; [reflexivity|]. rewrite IH. reflexivity. Qed.

(** When the misname gate fires, the last chunk becomes the sentence naming
    another category of [VISA_TYPES]. *)
Lemma step_misname_fire {St} {HR : RandomSource St} cfg v c (s : St) log c' st' :
  lt_float (fst (random_ s)) P_0_08 = true -> c <> [] ->
  step_misname cfg v c (s, log) = inr (c', st') ->
  exists w, In w (VISA_TYPES cfg) /\ w <> v /\
    c' = drop_last c ++ [u"I believe they are qualified for the " ++ w ++ u" visa."].
Proof.
  intros E Hc. unfold step_misname.
  rewrite (bind_inr_l _ _ _ _ _ (random_lt_logged _ _ _)), E. intros H.
  apply bind_inr in H as [w [st1 [Hw H]]].
  apply choice_in in Hw. apply filter_In in Hw as [Hw Hne].
  destruct st1 as [s1 l1].
  rewrite py_setitem_neg1 in H by exact Hc. injection H as <- _.
  exists w. split; [exact Hw|]. split.
  - intros ->. unfold ueqb in Hne. destruct (list_eq_dec Z.eq_dec v v); [discriminate | auto].
  - destruct (exists_last Hc) as [l [a ->]]. rewrite drop_last_snoc, length_app.
    simpl. rewrite Nat.add_sub. apply list_set_last.
Qed.

Lemma rough_misname_pass {St0} {HR : RandomSource St0} {HO : RandomSourceOk St0}
  cfg v1 v2 r b (s : St0) d s' k8 k7 kc log :
  P_SECTION_MISS cfg = P_1_0 ->
  mk_rough_draft cfg v1 r b (s, []) = inr (d, (s', k8 :: k7 :: kc :: log)) ->
  lt_float kc P_0_5 = false ->
  lt_float k7 P_0_08 = false ->
  mk_rough_draft cfg v2 r b (s, []) = inr (d, (s', k8 :: k7 :: kc :: log)).
Proof.
  intros HP H Ec E7. rewrite mk_rough_draft_steps in *. unfold rough_steps, rough_chunks in *.
  apply bind_inr in H as [c1 [st1 [H1 H]]].
  edestruct (@step_visa_mention_last _ (@logged_source St0 HR) cfg v1) as [y Hy]. rewrite Hy in H1.
  injection H1 as <- <-.
  edestruct (@step_visa_mention_last _ (@logged_source St0 HR) cfg v2) as [y2 Hy2]. rewrite (bind_inr_l _ _ _ _ _ Hy2).
  apply bind_inr in H as [c2 [st2 [H2 H]]].
  apply step_omit_last in H2 as [e2 [-> H2]]. rewrite (bind_inr_l _ _ _ _ _ (H2 y2)).
  apply bind_inr in H as [c3 [st3 [H3 H]]].
  apply step_count_last in H3 as [e3 [-> H3]]. rewrite (bind_inr_l _ _ _ _ _ (H3 y2)).
  apply bind_inr in H as [c4 [[s4 log4] [H4 H]]].
  apply step_hallucination_last in H4 as [e4 [-> H4]]. rewrite (bind_inr_l _ _ _ _ _ (H4 y2)).
  apply bind_inr in H as [c5 [[s5 log5] [H5 H]]].
  rewrite step_style_prefix, random_logged in H5. cbn [fst snd] in H5.
  injection H5 as <- <- <-.
  rewrite (bind_inr_l _ _ _ _ _ (step_style_prefix _ _ _)), random_logged. cbn [fst snd].
  set (pre := if lt_float _ _ then _ else _) in *.
  apply bind_inr in H as [c6 [[s6 log6] [H6 H]]].
  pose proof (step_section_log _ _ _ _ _ _ _ HP H6) as L6.
  apply bind_inr in H as [c7 [[s7 log7] [H7 H]]].
  pose proof (step_misname_log _ _ _ _ _ _ _ _ H7) as L7.
  pose proof (step_finish_log _ _ _ _ _ _ H) as L8.
  rewrite L7, L6 in L8. injection L8 as Ek8 Ek7 Ekc _.
  rewrite Ekc in Ec. rewrite Ek7 in E7.
  rewrite (step_section_drop _ _ _ _ HP Ec) in H6. injection H6 as <- <- <-.
  rewrite (bind_inr_l _ _ _ _ _ (step_section_drop _ _ _ _ HP Ec)).
  rewrite (step_misname_pass _ _ _ _ _ E7) in H7. injection H7 as <- <- <-.
  rewrite (bind_inr_l _ _ _ _ _ (step_misname_pass _ _ _ _ _ E7)).
  rewrite drop_last_app3 in *. exact H.
Qed.

Lemma drop_last_app2 {A} (l : list A) a b : drop_last (l ++ [a; b]) = l ++ [a].
Proof.
  replace (l ++ [a; b]) with ((l ++ [a]) ++ [b]) by (rewrite <- app_assoc; reflexivity).
  apply drop_last_snoc.
Qed.

Lemma if_app_r {A} (p : bool) (x y : list A) :
  (if p then x ++ y else x) = x ++ (if p then y else []).
Proof. destruct p; [reflexivity | rewrite app_nil_r; reflexivity]. Qed.

Lemma rough_misname_fire {St0} {HR : RandomSource St0} {HO : RandomSourceOk St0}
  cfg v r b (s : St0) d s' k8 k7 kc log :
  P_SECTION_MISS cfg = P_1_0 ->
  mk_rough_draft cfg v r b (s, []) = inr (d, (s', k8 :: k7 :: kc :: log)) ->
  lt_float kc P_0_5 = false ->
  lt_float k7 P_0_08 = true ->
  exists (w : ustr) (pre : list ustr) (p : bool), In w (VISA_TYPES cfg) /\ w <> v /\
    d = fill (join (u" ") (pre ++ [u"I believe they are qualified for the " ++ w ++ u" visa."])
              ++ (if p then PASSIVE_FILLER else [])) 110.
Proof.
  intros HP H Ec E7. rewrite mk_rough_draft_steps in *. unfold rough_steps, rough_chunks in *.
  apply bind_inr in H as [c1 [st1 [H1 H]]].
  edestruct (@step_visa_mention_last _ (@logged_source St0 HR) cfg v) as [y Hy]. rewrite Hy in H1.
  injection H1 as <- <-.
  apply bind_inr in H as [c2 [st2 [H2 H]]].
  apply step_omit_last in H2 as [e2 [-> H2]].
  apply bind_inr in H as [c3 [st3 [H3 H]]].
  apply step_count_last in H3 as [e3 [-> H3]].
  apply bind_inr in H as [c4 [[s4 log4] [H4 H]]].
  apply step_hallucination_last in H4 as [e4 [-> H4]].
  apply bind_inr in H as [c5 [[s5 log5] [H5 H]]].
  rewrite step_style_prefix, random_logged in H5. cbn [fst snd] in H5.
  injection H5 as <- <- <-.
  set (pre := if lt_float _ _ then _ else _) in *.
  apply bind_inr in H as [c6 [[s6 log6] [H6 H]]].
  pose proof (step_section_log _ _ _ _ _ _ _ HP H6) as L6.
  apply bind_inr in H as [c7 [[s7 log7] [H7 H]]].
  pose proof (step_misname_log _ _ _ _ _ _ _ _ H7) as L7.
  pose proof (step_finish_log _ _ _ _ _ _ H) as L8.
  rewrite L7, L6 in L8. injection L8 as Ek8 Ek7 Ekc _.
  rewrite Ekc in Ec. rewrite Ek7 in E7.
  rewrite (step_section_drop _ _ _ _ HP Ec) in H6. injection H6 as <- <- <-.
  rewrite drop_last_app3 in H7.
  apply step_misname_fire in H7 as [w [Hw [Hne ->]]];
    [| exact E7 | intros Hn; apply app_eq_nil in Hn as [_ Hn]; discriminate].
  rewrite drop_last_app2 in H.
  unfold step_finish in H. rewrite (bind_inr_l _ _ _ _ _ (random_lt_logged _ _ _)) in H.
  injection H as <- _ _. rewrite if_app_r.
  eexists w, _, _. split; [exact Hw|]. split; [exact Hne|]. reflexivity.
Qed.

Lemma misname_sentence_in_draft pre w (p : bool) :
  substrb (strip_ws w)
    (strip_ws (fill (join (u" ") (pre ++ [u"I believe they are qualified for the " ++ w ++ u" visa."])
                     ++ (if p then PASSIVE_FILLER else [])) 110)) = true.
Proof.
  apply substrb_spec. rewrite strip_fill by lia. apply strip_ws_substr.
  apply substr_app_l. eapply substr_trans; [|apply substr_join_last].
  apply substr_app_r, substr_app_l, substr_refl.
Qed.

(* ================================================================== *)
(** * The claims *)

(** ** C1: facts in the final draft *)

(** C1 (counterexample): an award of the record that is not a substring of
    the final draft, because the wrap at 110 columns puts a newline inside
    it ("...Scientists and" / "Engineers."). *)
Lemma C1_counterexample :
  exists a, In a (key_awards long_award_facts) /\
    substrb a (mk_final_draft (u"EB-1A") example_recommender long_award_facts) = false.
Proof.
  exists (u"Presidential Early Career Award for Scientists and Engineers").
  split; [cbn [key_awards long_award_facts In]; auto | vm_compute; reflexivity].
Qed.

(** C1 (amended): every fact of the record (publication count, citation
    count, visa category, each award, each venue) is a substring of the
    unwrapped intro or evidence paragraph, and it appears in the final draft
    up to whitespace: with all whitespace removed, the fact is a substring
    of the final draft with all whitespace removed. *)
Theorem C1_final_draft_facts v r b x :
  In x (py_str (pubs b) :: py_str (citations b) :: v :: key_awards b ++ key_venues b) ->
  (substr x (legal_intro v r b) \/ substr x (legal_evidence b)) /\
  substr (strip_ws x) (strip_ws (mk_final_draft v r b)).
Proof.
  intros Hin. pose proof (fact_in_paragraph v r b x Hin) as Hp.
  split; [exact Hp|]. rewrite strip_mk_final_draft.
  destruct Hp as [Hp|Hp]; apply strip_ws_substr in Hp; find_sub.
Qed.

Lemma C1_final_draft_facts_witness :
  In (u"Presidential Early Career Award for Scientists and Engineers")
     (py_str (pubs long_award_facts) :: py_str (citations long_award_facts) :: u"EB-1A" ::
      key_awards long_award_facts ++ key_venues long_award_facts) /\
  ((substr (u"Presidential Early Career Award for Scientists and Engineers")
      (legal_intro (u"EB-1A") example_recommender long_award_facts) \/
    substr (u"Presidential Early Career Award for Scientists and Engineers")
      (legal_evidence long_award_facts)) /\
   substr (strip_ws (u"Presidential Early Career Award for Scientists and Engineers"))
     (strip_ws (mk_final_draft (u"EB-1A") example_recommender long_award_facts))).
Proof.
  split.
  - cbn [In app key_awards long_award_facts]. right; right; right; right; right; left.
    reflexivity.
  - apply (C1_final_draft_facts (u"EB-1A") example_recommender long_award_facts).
    cbn [In app key_awards long_award_facts]. right; right; right; right; right; left.
    reflexivity.
Defined.

(** ** C2: empty pools *)

(** C2 (counterexample): with an empty venue pool, [mk_beneficiary] raises
    nothing and returns a record with no venue. *)
Lemma C2_counterexample :
  match mk_beneficiary empty_venue_config 1 (Script [3; 14; 1200; 2; 1; 3]) with
  | inr (f, _) => key_venues f = []
  | inl _ => False
  end.
Proof. vm_compute. reflexivity. Qed.

(** C2 (amended): sampling from an empty pool raises nothing: for every
    [k >= 0], [choice_no_replacement([], k)] returns the empty list without
    drawing; so when the venue pool is empty, every record that
    [mk_beneficiary] returns has an empty venue list. *)
Theorem C2_empty_pool_no_error {St : Type} {HR : RandomSource St} (cfg : config)
    (i : Z) (s s' : St) (f : BeneficiaryFacts) :
  VENUE_POOL cfg = [] -> mk_beneficiary cfg i s = inr (f, s') ->
  (forall k (s0 : St), 0 <= k -> choice_no_replacement [] k s0 = inr ([], s0)) /\
  key_venues f = [].
Proof.
  intros Hv H. split; [exact choice_no_replacement_nil|].
  unfold mk_beneficiary in H.
  inv_bind H. inv_bind H. inv_bind H. inv_bind H. inv_bind H. inv_bind H. inv_bind H.
  apply ret_inr in H as [<- _]. cbn [key_venues]. rewrite Hv in Hm5.
  exact (sample_nil _ _ _ _ Hm5).
Qed.

Lemma C2_empty_pool_no_error_witness :
  VENUE_POOL empty_venue_config = [] /\
  mk_beneficiary empty_venue_config 1 (Script [3; 14; 1200; 2; 1; 3]) =
    inr ({| name := u"Dr. Alex 1"; field := u"NLP"; pubs := 22; citations := 1400;
            key_awards := [u"IEEE Fellow"; u"NSF CAREER Award"]; key_venues := [] |},
         Script []) /\
  ((forall k (s0 : script), 0 <= k -> choice_no_replacement [] k s0 = inr ([], s0)) /\
   key_venues {| name := u"Dr. Alex 1"; field := u"NLP"; pubs := 22; citations := 1400;
                 key_awards := [u"IEEE Fellow"; u"NSF CAREER Award"]; key_venues := [] |}
   = []).
Proof.
  split; [reflexivity|]. split; [vm_compute; reflexivity|].
  apply (C2_empty_pool_no_error empty_venue_config 1 (Script [3; 14; 1200; 2; 1; 3])
           (Script []));
    [reflexivity | vm_compute; reflexivity].
Defined.

(** ** C6: the ranges of [mk_beneficiary] *)

Ltac nodup_tac :=
  vm_compute; repeat constructor;
  let H := fresh in intros H; repeat (destruct H as [H|H]; [discriminate|]); exact H.

(** C6: for a random source whose primitives stay in their ranges and pools
    without repeated entries, every record [mk_beneficiary] returns has its
    publication and citation counts in the configured inclusive ranges, award
    and venue lists without duplicates drawn from their pools, at most 2
    awards, at most 3 venues, and at least 1 venue when the venue pool is
    not empty. *)
Theorem C6_mk_beneficiary_invariants {St : Type} {HR : RandomSource St}
    {HO : RandomSourceOk St} (cfg : config) (i : Z) (s s' : St) (f : BeneficiaryFacts) :
  NoDup (AWARD_POOL cfg) -> NoDup (VENUE_POOL cfg) ->
  mk_beneficiary cfg i s = inr (f, s') ->
  fst (PUB_RANGE cfg) <= pubs f <= snd (PUB_RANGE cfg) /\
  fst (CITATION_RANGE cfg) <= citations f <= snd (CITATION_RANGE cfg) /\
  NoDup (key_awards f) /\ incl (key_awards f) (AWARD_POOL cfg) /\
  NoDup (key_venues f) /\ incl (key_venues f) (VENUE_POOL cfg) /\
  (length (key_awards f) <= 2)%nat /\
  (VENUE_POOL cfg <> [] -> (1 <= length (key_venues f))%nat) /\
  (length (key_venues f) <= 3)%nat.
Proof.
  intros Ha Hv H.
  destruct (mk_beneficiary_ok cfg i s f s' Ha Hv H)
    as [H1 [H2 [H3 [H4 [H5 [H6 [H7 [H8 [H9 _]]]]]]]]].
  tauto.
Qed.

Lemma C6_mk_beneficiary_invariants_witness :
  NoDup (AWARD_POOL default_config) /\ NoDup (VENUE_POOL default_config) /\
  mk_beneficiary default_config 1 sampled_script = inr (sampled_facts, Script []) /\
  (fst (PUB_RANGE default_config) <= pubs sampled_facts <= snd (PUB_RANGE default_config) /\
   fst (CITATION_RANGE default_config) <= citations sampled_facts <=
     snd (CITATION_RANGE default_config) /\
   NoDup (key_awards sampled_facts) /\
   incl (key_awards sampled_facts) (AWARD_POOL default_config) /\
   NoDup (key_venues sampled_facts) /\
   incl (key_venues sampled_facts) (VENUE_POOL default_config) /\
   (length (key_awards sampled_facts) <= 2)%nat /\
   (VENUE_POOL default_config <> [] -> (1 <= length (key_venues sampled_facts))%nat) /\
   (length (key_venues sampled_facts) <= 3)%nat).
Proof.
  split; [nodup_tac|]. split; [nodup_tac|]. split; [vm_compute; reflexivity|].
  apply (C6_mk_beneficiary_invariants default_config 1 sampled_script (Script []));
    [nodup_tac | nodup_tac | vm_compute; reflexivity].
Defined.

(* ------------------------------------------------------------------ *)
(** ** C3 *)

(** C3 (counterexample): with [P_SECTION_MISS = 1.0] and the coin on
    "drop closing", the misname gate (line 171) can still fire; it
    rewrites the last remaining chunk into a sentence naming another visa
    category, here "O-1A" for an "EB-1A" petition. *)
Lemma C3_counterexample :
  match mk_rough_draft section_miss_config (u"EB-1A") example_recommender example_facts
          misname_script with
  | inr (d, _) => substrb (u"O-1A") d = true
  | inl _ => False
  end.
Proof. vm_compute. reflexivity. Qed.

(** C3: with [P_SECTION_MISS = 1.0], take a run whose section coin lands
    on "drop closing" (the third value of [random()] from the end,
    [kc >= 0.5]).  If its misname gate does not fire (the second from the
    end, [k7 >= 0.08]), the rough draft does not depend on the visa
    category: the same draws give the same text for any other visa.  If
    the gate fires ([k7 < 0.08]), the last chunk of the body is the
    sentence "I believe they are qualified for the {w} visa." for a
    category [w] of [VISA_TYPES] other than the petition's, and [w]
    appears in the draft (up to the line breaks of the wrap). *)
Theorem C3_visa_independent {St0} {HR : RandomSource St0} {HO : RandomSourceOk St0}
  cfg v1 v2 r b (s : St0) d s' k8 k7 kc log :
  P_SECTION_MISS cfg = P_1_0 ->
  mk_rough_draft cfg v1 r b (s, []) = inr (d, (s', k8 :: k7 :: kc :: log)) ->
  lt_float kc P_0_5 = false ->
  (lt_float k7 P_0_08 = false ->
   mk_rough_draft cfg v2 r b (s, []) = inr (d, (s', k8 :: k7 :: kc :: log))) /\
  (lt_float k7 P_0_08 = true ->
   exists (w : ustr) (pre : list ustr) (p : bool),
     In w (VISA_TYPES cfg) /\ w <> v1 /\
     d = fill (join (u" ") (pre ++ [u"I believe they are qualified for the " ++ w ++ u" visa."])
               ++ (if p then PASSIVE_FILLER else [])) 110 /\
     substrb (strip_ws w) (strip_ws d) = true).
Proof.
  intros HP H Ec. split; intros E7.
  - exact (rough_misname_pass cfg v1 v2 r b s d s' k8 k7 kc log HP H Ec E7).
  - destruct (rough_misname_fire cfg v1 r b s d s' k8 k7 kc log HP H Ec E7)
      as [w [pre [p [Hw [Hne ->]]]]].
    exists w, pre, p. split; [exact Hw|]. split; [exact Hne|]. split; [reflexivity|].
    apply misname_sentence_in_draft.
Qed.

Lemma C3_visa_independent_witness :
  mk_rough_draft section_miss_config (u"O-1A") example_recommender example_facts
    (drop_closing_script, []) =
  inr (drop_closing_draft, (Script [], [PASS; PASS; PASS; FIRE; PASS; PASS; PASS; PASS; PASS])) /\
  exists (w : ustr) (pre : list ustr) (p : bool),
    In w (VISA_TYPES section_miss_config) /\ w <> u"EB-1A" /\
    misname_draft =
      fill (join (u" ") (pre ++ [u"I believe they are qualified for the " ++ w ++ u" visa."])
            ++ (if p then PASSIVE_FILLER else [])) 110 /\
    substrb (strip_ws w) (strip_ws misname_draft) = true.
Proof.
  split.
  - refine (proj1 (C3_visa_independent section_miss_config (u"EB-1A") (u"O-1A")
                     example_recommender example_facts drop_closing_script drop_closing_draft
                     (Script []) PASS PASS PASS [FIRE; PASS; PASS; PASS; PASS; PASS] _ _ _) _);
      [reflexivity | vm_compute; reflexivity | reflexivity | reflexivity].
  - refine (proj2 (C3_visa_independent section_miss_config (u"EB-1A") (u"EB-1A")
                     example_recommender example_facts misname_script misname_draft
                     (Script []) PASS FIRE PASS [FIRE; PASS; PASS; PASS; PASS; PASS] _ _ _) _);
      [reflexivity | vm_compute; reflexivity | reflexivity | reflexivity].
Defined.

(* ------------------------------------------------------------------ *)
(** ** C4 *)

(** C4 (failing input): when the style gate has prepended [STYLE_FILLER],
    the section gate fires and its coin lands on [pop(0)] ("lose intro"),
    the segment removed is the filler: the draft still contains the intro
    and the closing (up to whitespace), and no longer the filler. *)
Lemma C4_pop_removes_filler :
  match mk_rough_draft default_config (u"EB-1A") example_recommender example_facts
          filler_pop_script with
  | inr (d, _) =>
      substrb (strip_ws (hd [] (rough_chunks example_facts))) (strip_ws d) = true /\
      substrb (strip_ws (u"I believe they are qualified for the EB-1A visa.")) (strip_ws d) = true /\
      substrb (strip_ws STYLE_FILLER) (strip_ws d) = false
  | inl _ => False
  end.
Proof. vm_compute. auto. Qed.


(* ------------------------------------------------------------------ *)
(** ** C5 *)

(** C5 (counterexample): for the true count 1 the corrupted count is
    [max(1, 1 - 5) = 1], the true count. *)
Lemma C5_counterexample : maybe_wrong_count 1 (Script [0; 0]) = inr (1, Script []).
Proof. vm_compute. reflexivity. Qed.

(** C5: the count step appends " They have around {w} publications." to
    the evidence chunk; when the gate fires, [w = max(1, pubs +- delta)]
    with [5 <= delta <= 20], which differs from [pubs] unless [pubs = 1];
    when it does not fire, [w = pubs]. *)
Theorem C5_step_count {St} {HR : RandomSource St} {HO : RandomSourceOk St}
  cfg b i e x (s : St) c' s' :
  step_count cfg b [i; e; x] s = inr (c', s') ->
  exists w, c' = [i; e ++ u" They have around " ++ py_str w ++ u" publications."; x] /\
    if lt_float (fst (random_ s)) (P_WRONG_COUNT cfg)
    then (exists delta, 5 <= delta <= 20 /\
            (w = Z.max 1 (pubs b - delta) \/ w = Z.max 1 (pubs b + delta))) /\
         (pubs b <> 1 -> w <> pubs b)
    else w = pubs b.
Proof.
  unfold step_count, py_iadd_item. rewrite (bind_inr_l _ _ _ _ _ (random_lt_unfold _ s)).
  destruct (lt_float _ _).
  - intros H. apply bind_inr in H as [w [s1 [Hw H]]].
    rewrite (bind_inr_l _ _ _ _ _ (py_getitem_1_3 _ _ _ _)), py_setitem_1_3 in H.
    injection H as <- _. exists w. split; [reflexivity|].
    destruct (maybe_wrong_count_spec _ _ _ _ Hw) as [delta [Hd Hw']].
    split; [eauto|]. intros Ht. apply (max_offset_differs _ delta); auto; lia.
  - rewrite bind_ret_pt, (bind_inr_l _ _ _ _ _ (py_getitem_1_3 _ _ _ _)), py_setitem_1_3.
    intros H. injection H as <- _. exists (pubs b). split; reflexivity.
Qed.

Lemma C5_step_count_witness :
  exists w, count_fired_chunks =
    [nth 0 (rough_chunks example_facts) [];
     nth 1 (rough_chunks example_facts) [] ++ u" They have around " ++ py_str w ++
       u" publications.";
     nth 2 (rough_chunks example_facts) []] /\
    if lt_float (fst (random_ count_fire_script)) (P_WRONG_COUNT default_config)
    then (exists delta, 5 <= delta <= 20 /\
            (w = Z.max 1 (pubs example_facts - delta) \/ w = Z.max 1 (pubs example_facts + delta))) /\
         (pubs example_facts <> 1 -> w <> pubs example_facts)
    else w = pubs example_facts.
Proof.
  apply (C5_step_count default_config example_facts _ _ _ count_fire_script count_fired_chunks (Script [])).
  vm_compute. reflexivity.
Defined.

(* ------------------------------------------------------------------ *)
(** ** C7 *)

(** C7: [mk_rough_draft] depends on the random source only through the
    values its primitives return: from two states related so that both
    primitives agree step by step (the same state, in particular), it
    returns the same text (or the same error) and related final states. *)
Theorem C7_same_draws_same_draft {S1 S2} {H1 : RandomSource S1} {H2 : RandomSource S2}
  (R : S1 -> S2 -> Prop) cfg v r b s1 s2 :
  (forall t1 t2, R t1 t2 ->
     fst (random_ t1) = fst (random_ t2) /\ R (snd (random_ t1)) (snd (random_ t2))) ->
  (forall n t1 t2, R t1 t2 ->
     fst (randbelow n t1) = fst (randbelow n t2) /\ R (snd (randbelow n t1)) (snd (randbelow n t2))) ->
  R s1 s2 ->
  rel_res R (mk_rough_draft cfg v r b s1) (mk_rough_draft cfg v r b s2).
Proof. intros Hr Hb Hs. exact (rel_mk_rough_draft R Hr Hb cfg v r b s1 s2 Hs). Qed.

Lemma C7_same_draws_same_draft_witness :
  rel_res eq
    (mk_rough_draft default_config (u"EB-1A") example_recommender example_facts sampled_script)
    (mk_rough_draft default_config (u"EB-1A") example_recommender example_facts sampled_script).
Proof.
  apply (C7_same_draws_same_draft (@eq script)).
  - intros t1 t2 <-. auto.
  - intros n t1 t2 <-. auto.
  - reflexivity.
Defined.

(* ------------------------------------------------------------------ *)
(** ** C8 *)

(** C8: with no awards, [facts_to_string] renders "Awards: —" with the
    name, field, both counts and the comma-joined venues: up to whitespace
    (the 120-column wrap only turns spaces into newlines) it is the
    unwrapped sentence with [EM_DASH] for the awards, and the placeholder
    appears verbatim. *)
Theorem C8_no_awards_placeholder b :
  key_awards b = [] ->
  strip_ws (facts_to_string b) =
  strip_ws (name b ++ u" works in " ++ field b ++ u". Publications: " ++ py_str (pubs b) ++
            u". " ++
            u"Citations: " ++ py_str (citations b) ++ u". Awards: " ++ EM_DASH ++ u". " ++
            u"Key venues: " ++ join (u", ") (key_venues b) ++ u".") /\
  substr EM_DASH (facts_to_string b).
Proof.
  intros H. unfold facts_to_string. rewrite H. cbv zeta.
  rewrite strip_fill by lia. split; [reflexivity|].
  apply substr_single, in_strip_ws. rewrite strip_fill by lia.
  apply filter_In. split; [|reflexivity].
  assert (In 8212 EM_DASH) by (left; reflexivity).
  rewrite !in_app_iff. auto 20.
Qed.

Lemma C8_no_awards_placeholder_witness :
  strip_ws (facts_to_string no_award_facts) =
  strip_ws (name no_award_facts ++ u" works in " ++ field no_award_facts ++ u". Publications: " ++
            py_str (pubs no_award_facts) ++ u". " ++
            u"Citations: " ++ py_str (citations no_award_facts) ++ u". Awards: " ++ EM_DASH ++
            u". " ++ u"Key venues: " ++ join (u", ") (key_venues no_award_facts) ++ u".") /\
  substr EM_DASH (facts_to_string no_award_facts).
Proof. apply C8_no_awards_placeholder. reflexivity. Defined.


(* ------------------------------------------------------------------ *)
(** ** C9 *)

(** C9 (counterexample): a venue spelled like an entry of the award pool
    is copied into the rough draft. *)
Lemma C9_counterexample :
  In (u"ICLR Spotlight") (AWARD_POOL default_config) /\
  match mk_rough_draft default_config (u"EB-1A") example_recommender award_venue_facts
          (Script (repeat PASS 9)) with
  | inr (d, _) => substrb (u"ICLR Spotlight") d = true
  | inl _ => False
  end.
Proof. split; [simpl; tauto|]. vm_compute. reflexivity. Qed.


(** C9: the rough draft depends on [key_awards] only through its
    emptiness: records that agree on the other fields and on whether they
    have awards give the same draft from the same state; and no fabricated
    award of the hallucination gate contains an entry of the award pool. *)
Theorem C9_awards_only_emptiness {St} {HR : RandomSource St} cfg v r b b' (s : St) :
  name b = name b' -> field b = field b' -> pubs b = pubs b' ->
  key_venues b = key_venues b' ->
  (key_awards b = [] <-> key_awards b' = []) ->
  mk_rough_draft cfg v r b s = mk_rough_draft cfg v r b' s /\
  (forall a a', In a FAKE_AWARDS -> In a' (AWARD_POOL default_config) -> substrb a' a = false).
Proof.
  intros Hn Hf Hp Hv Ha. split.
  - rewrite !mk_rough_draft_steps. unfold rough_steps, rough_chunks, step_count.
    rewrite Hn, Hf, Hp, Hv, (step_omit_awards cfg b b' Ha). reflexivity.
  - intros a a' Hin Hin'. pose proof fake_awards_not_real as F.
    rewrite forallb_forall in F. specialize (F a Hin). rewrite forallb_forall in F.
    apply negb_true_iff, F, Hin'.
Qed.

Lemma C9_awards_only_emptiness_witness :
  mk_rough_draft default_config (u"EB-1A") example_recommender example_facts sampled_script =
  mk_rough_draft default_config (u"EB-1A") example_recommender other_awards_facts sampled_script /\
  (forall a a', In a FAKE_AWARDS -> In a' (AWARD_POOL default_config) -> substrb a' a = false).
Proof.
  apply C9_awards_only_emptiness; try reflexivity. split; discriminate.
Defined.


(* ------------------------------------------------------------------ *)
(** ** C10 *)

(** C10 (counterexample): a recommender whose full name is the
    beneficiary's name has it in the final draft. *)
Lemma C10_counterexample :
  substrb (full_name namesake_recommender)
    (mk_final_draft (u"EB-1A") namesake_recommender example_facts) = true.
Proof. vm_compute. reflexivity. Qed.

(** C10: the rough draft does not depend on the recommender, and the
    final draft depends on it only through its title and affiliation: the
    full name never reaches either draft. *)
Theorem C10_recommender_independent {St} {HR : RandomSource St} cfg v r1 r2 b (s : St) :
  mk_rough_draft cfg v r1 b s = mk_rough_draft cfg v r2 b s /\
  (title r1 = title r2 -> affiliation r1 = affiliation r2 ->
   mk_final_draft v r1 b = mk_final_draft v r2 b).
Proof.
  split.
  - rewrite !mk_rough_draft_steps. reflexivity.
  - intros Ht Ha. unfold mk_final_draft, legal_intro. rewrite Ht, Ha. reflexivity.
Qed.

(* ================================================================== *)
(** * Further properties of the code *)

(* ------------------------------------------------------------------ *)
(** ** Line widths of the texts *)

(** X1: every line of [facts_to_string b] has at most 120 code points. *)
Theorem X1_facts_to_string_line_width b :
  Forall (fun l => Z.of_nat (length l) <= 120) (py_split 10 (facts_to_string b)).
Proof. unfold facts_to_string. apply fill_lines_within. lia. Qed.

(** X2: every line of [mk_final_draft] has at most 110 code points (the
    blank lines between paragraphs included). *)
Theorem X2_mk_final_draft_line_width v r b :
  Forall (fun l => Z.of_nat (length l) <= 110) (py_split 10 (mk_final_draft v r b)).
Proof.
  unfold mk_final_draft. apply forall_split_join;
    [intros c [<-|[<-|[]]]; reflexivity | discriminate | simpl; lia |].
  repeat constructor; apply fill_lines_within; lia.
Qed.

(** X3: every line of a rough draft [mk_rough_draft] returns has at most
    110 code points, whatever noise was injected. *)
Theorem X3_mk_rough_draft_line_width {St} {HR : RandomSource St} cfg v r b (s s' : St) d :
  mk_rough_draft cfg v r b s = inr (d, s') ->
  Forall (fun l => Z.of_nat (length l) <= 110) (py_split 10 d).
Proof.
  rewrite mk_rough_draft_steps. unfold rough_steps. intros H.
  do 7 (apply bind_inr in H as [? [? [_ H]]]).
  unfold step_finish in H. apply bind_inr in H as [? [? [_ H]]].
  apply ret_inr in H as [<- _]. apply fill_lines_within. lia.
Qed.

Lemma X3_mk_rough_draft_line_width_witness :
  exists d s', mk_rough_draft default_config (u"EB-1A") example_recommender example_facts
                 sampled_script = inr (d, s') /\
               Forall (fun l => Z.of_nat (length l) <= 110) (py_split 10 d).
Proof.
  destruct (mk_rough_draft default_config (u"EB-1A") example_recommender example_facts
              sampled_script) as [e|[d s']] eqn:E; [vm_compute in E; discriminate|].
  exists d, s'. split; [reflexivity|].
  exact (X3_mk_rough_draft_line_width default_config _ _ _ _ _ _ E).
Defined.

(* ------------------------------------------------------------------ *)
(** ** [choice_no_replacement] *)

(** X4: [choice_no_replacement pool k] with [k < 0] raises [ValueError]
    ([random.sample] refuses the negative size), whatever the pool. *)
Theorem X4_choice_no_replacement_negative {St} {HR : RandomSource St}
        (pool : list ustr) k (s : St) :
  k < 0 -> choice_no_replacement pool k s = inl ValueError.
Proof.
  intros Hk. unfold choice_no_replacement, sample.
  replace (negb ((0 <=? Z.min k (Z.of_nat (length pool))) &&
                 (Z.min k (Z.of_nat (length pool)) <=? Z.of_nat (length pool)))) with true.
  - reflexivity.
  - symmetry. apply negb_true_iff, andb_false_iff. left. apply Z.leb_gt. lia.
Qed.

Lemma X4_choice_no_replacement_negative_witness :
  -1 < 0 /\ choice_no_replacement (AWARD_POOL default_config) (-1) sampled_script
            = inl ValueError.
Proof.
  split; [lia|]. apply (X4_choice_no_replacement_negative _ (-1) sampled_script). lia.
Defined.

(** X5: for [k >= 0] and a pool of at most 21 distinct items (the
    program's pools have 9 and 8), [choice_no_replacement pool k] succeeds
    and returns [min k (len pool)] distinct items of the pool; when
    [k >= len pool] it returns the whole pool in some order. *)
Theorem X5_choice_no_replacement_small_pool {St} {HR : RandomSource St}
        {HO : RandomSourceOk St} (pool : list ustr) k (s : St) :
  NoDup pool -> 0 <= k -> (length pool <= 21)%nat ->
  exists xs s', choice_no_replacement pool k s = inr (xs, s') /\
    NoDup xs /\ incl xs pool /\ Z.of_nat (length xs) = Z.min k (Z.of_nat (length pool)) /\
    (Z.of_nat (length pool) <= k -> Permutation xs pool).
Proof.
  intros Hnd Hk Hl.
  destruct (succ_sample pool (Z.min k (Z.of_nat (length pool))) ltac:(lia) Hl s)
    as [xs [s' [E _]]].
  exists xs, s'. split; [exact E|].
  apply choice_no_replacement_ok in E as [H1 [H2 H3]]; [|exact Hnd].
  repeat split; auto. intros Hkl. apply NoDup_Permutation_bis; auto; lia.
Qed.

Lemma X5_choice_no_replacement_small_pool_witness :
  exists xs s', choice_no_replacement (VENUE_POOL default_config) 10 sampled_script
                = inr (xs, s') /\ Permutation xs (VENUE_POOL default_config).
Proof.
  destruct (X5_choice_no_replacement_small_pool (VENUE_POOL default_config) 10
              sampled_script ltac:(nodup_tac) ltac:(lia) ltac:(simpl; lia))
    as [xs [s' [E [_ [_ [_ Hp]]]]]].
  exists xs, s'. split; [exact E | apply Hp; simpl; lia].
Defined.

(* ------------------------------------------------------------------ *)
(** ** [mk_beneficiary] and [mk_recommender] *)

(** X6: with an empty [FIELDS], [mk_beneficiary] raises [IndexError]
    ([random.choice] of an empty list) before drawing anything else. *)
Theorem X6_mk_beneficiary_no_fields {St} {HR : RandomSource St} cfg i (s : St) :
  FIELDS cfg = [] -> mk_beneficiary cfg i s = inl IndexError.
Proof. intros E. unfold mk_beneficiary, choice. rewrite E. reflexivity. Qed.

Lemma X6_mk_beneficiary_no_fields_witness :
  FIELDS no_fields_config = [] /\ mk_beneficiary no_fields_config 1 sampled_script = inl IndexError.
Proof.
  split; [reflexivity|]. apply (X6_mk_beneficiary_no_fields no_fields_config 1 sampled_script).
  reflexivity.
Defined.

(** X7: with a nonempty [FIELDS], [mk_beneficiary] raises [ValueError]
    ([random.randint] of an empty range) when [PUB_RANGE] is reversed, or
    when [PUB_RANGE] is in order and [CITATION_RANGE] is reversed. *)
Theorem X7_mk_beneficiary_bad_range {St} {HR : RandomSource St} {HO : RandomSourceOk St}
        cfg i (s : St) :
  FIELDS cfg <> [] ->
  snd (PUB_RANGE cfg) < fst (PUB_RANGE cfg) \/
  (fst (PUB_RANGE cfg) <= snd (PUB_RANGE cfg) /\
   snd (CITATION_RANGE cfg) < fst (CITATION_RANGE cfg)) ->
  mk_beneficiary cfg i s = inl ValueError.
Proof.
  intros Hf Hr. unfold mk_beneficiary.
  destruct (succ_choice (FIELDS cfg) Hf s) as [f [s1 [E _]]].
  unfold bind at 1. rewrite E.
  destruct Hr as [Hr|[Hp Hr]].
  - unfold randint at 1. replace (0 <? snd (PUB_RANGE cfg) + 1 - fst (PUB_RANGE cfg)) with false
      by (symmetry; apply Z.ltb_ge; lia). reflexivity.
  - destruct (succ_randint _ _ Hp s1) as [p [s2 [E2 _]]].
    unfold bind at 1. rewrite E2.
    unfold randint at 1. replace (0 <? snd (CITATION_RANGE cfg) + 1 - fst (CITATION_RANGE cfg))
      with false by (symmetry; apply Z.ltb_ge; lia). reflexivity.
Qed.

Lemma X7_mk_beneficiary_bad_range_witness :
  mk_beneficiary reversed_pubs_config 1 sampled_script = inl ValueError.
Proof.
  apply (X7_mk_beneficiary_bad_range reversed_pubs_config 1 sampled_script);
    [discriminate | left; simpl; lia].
Defined.

(** X8: [mk_beneficiary] raises nothing when [FIELDS] is nonempty, both
    count ranges are in order and the award and venue pools have at most 21
    items; [default_config] meets these conditions. *)
Theorem X8_mk_beneficiary_total {St} {HR : RandomSource St} {HO : RandomSourceOk St}
        cfg i (s : St) :
  FIELDS cfg <> [] ->
  fst (PUB_RANGE cfg) <= snd (PUB_RANGE cfg) ->
  fst (CITATION_RANGE cfg) <= snd (CITATION_RANGE cfg) ->
  (length (AWARD_POOL cfg) <= 21)%nat -> (length (VENUE_POOL cfg) <= 21)%nat ->
  exists b s', mk_beneficiary cfg i s = inr (b, s').
Proof.
  intros Hf Hp Hc Ha Hv.
  destruct (succ_mk_beneficiary cfg i Hf Hp Hc Ha Hv s) as [b [s' [E _]]]. eauto.
Qed.

Lemma X8_mk_beneficiary_total_witness :
  exists b s', mk_beneficiary default_config 7 (Script []) = inr (b, s').
Proof.
  apply (X8_mk_beneficiary_total default_config 7 (Script []));
    [discriminate | simpl; lia | simpl; lia | simpl; lia | simpl; lia].
Defined.

(** X9: with nonempty organisation and title pools, [mk_recommender i]
    succeeds and returns ["Dr. Jordan {i}"] with an affiliation and a title
    drawn from the pools. *)
Theorem X9_mk_recommender_total {St} {HR : RandomSource St} {HO : RandomSourceOk St}
        cfg i (s : St) :
  ORG_POOL cfg <> [] -> TITLE_POOL cfg <> [] ->
  exists r s', mk_recommender cfg i s = inr (r, s') /\
    In (affiliation r) (ORG_POOL cfg) /\ In (title r) (TITLE_POOL cfg) /\
    full_name r = u"Dr. Jordan " ++ py_str i.
Proof.
  intros Ho Ht. destruct (succ_mk_recommender cfg i Ho Ht s) as [r [s' [E Hr]]]. eauto.
Qed.

Lemma X9_mk_recommender_total_witness :
  exists r s', mk_recommender default_config 3 sampled_script = inr (r, s') /\
    full_name r = u"Dr. Jordan 3".
Proof.
  destruct (X9_mk_recommender_total default_config 3 sampled_script ltac:(discriminate)
              ltac:(discriminate)) as [r [s' [E [_ [_ Hn]]]]].
  exists r, s'. split; [exact E | rewrite Hn; reflexivity].
Defined.

(** X10: [mk_recommender] raises [IndexError] when the organisation pool
    or the title pool is empty. *)
Theorem X10_mk_recommender_empty_pool {St} {HR : RandomSource St} {HO : RandomSourceOk St}
        cfg i (s : St) :
  ORG_POOL cfg = [] \/ TITLE_POOL cfg = [] -> mk_recommender cfg i s = inl IndexError.
Proof.
  intros H. unfold mk_recommender.
  destruct (ORG_POOL cfg) as [|o os] eqn:Eo; [reflexivity|].
  destruct H as [H|H]; [discriminate|].
  destruct (succ_choice (o :: os) ltac:(discriminate) s) as [a [s1 [E _]]].
  unfold bind at 1. rewrite E. unfold choice at 1. rewrite H. reflexivity.
Qed.

Lemma X10_mk_recommender_empty_pool_witness :
  mk_recommender no_titles_config 1 sampled_script = inl IndexError.
Proof.
  apply (X10_mk_recommender_empty_pool no_titles_config 1 sampled_script).
  right. reflexivity.
Defined.

(* ------------------------------------------------------------------ *)
(** ** Failures of [mk_rough_draft] *)

(** X11: the only error [mk_rough_draft] can raise is [IndexError], and
    only when every visa category of the configuration is [visa_type]: the
    misnaming step then draws from an empty list. *)
Theorem X11_mk_rough_draft_failure {St} {HR : RandomSource St} {HO : RandomSourceOk St}
        cfg v r b (s : St) e :
  mk_rough_draft cfg v r b s = inl e ->
  e = IndexError /\ forall w, In w (VISA_TYPES cfg) -> w = v.
Proof. apply mk_rough_draft_inl. Qed.

Lemma X11_mk_rough_draft_failure_witness :
  mk_rough_draft single_visa_config (u"EB-1A") example_recommender example_facts (Script [])
    = inl IndexError /\
  forall w, In w (VISA_TYPES single_visa_config) -> w = u"EB-1A".
Proof.
  assert (E : mk_rough_draft single_visa_config (u"EB-1A") example_recommender example_facts
                (Script []) = inl IndexError) by (vm_compute; reflexivity).
  split; [exact E|]. exact (proj2 (X11_mk_rough_draft_failure _ _ _ _ _ _ E)).
Defined.

(** X12: [mk_rough_draft] raises nothing when the configuration has a visa
    category other than [visa_type]; with [default_config] it never fails. *)
Theorem X12_mk_rough_draft_total {St} {HR : RandomSource St} {HO : RandomSourceOk St}
        cfg v r b (s : St) :
  (exists w, In w (VISA_TYPES cfg) /\ w <> v) ->
  exists d s', mk_rough_draft cfg v r b s = inr (d, s').
Proof.
  intros Hw. destruct (succ_mk_rough_draft cfg v r b Hw s) as [d [s' [E _]]]. eauto.
Qed.

Lemma X12_mk_rough_draft_total_witness :
  exists d s', mk_rough_draft default_config (u"NIW") example_recommender example_facts
                 (Script []) = inr (d, s').
Proof.
  apply X12_mk_rough_draft_total. exists (u"EB-1A"). split; [simpl; auto | discriminate].
Defined.

(* ------------------------------------------------------------------ *)
(** ** [make_rows] and [summarize] *)



(** X14: [make_rows] raises nothing when the configuration has two
    different visa categories, a nonempty [FIELDS], count ranges in order,
    award and venue pools of at most 21 items and nonempty organisation and
    title pools; [default_config] meets these conditions. *)
Theorem X14_make_rows_total {St} {HR : RandomSource St} {HO : RandomSourceOk St}
        cfg n (s : St) :
  (exists v w, In v (VISA_TYPES cfg) /\ In w (VISA_TYPES cfg) /\ v <> w) ->
  FIELDS cfg <> [] ->
  fst (PUB_RANGE cfg) <= snd (PUB_RANGE cfg) ->
  fst (CITATION_RANGE cfg) <= snd (CITATION_RANGE cfg) ->
  (length (AWARD_POOL cfg) <= 21)%nat -> (length (VENUE_POOL cfg) <= 21)%nat ->
  ORG_POOL cfg <> [] -> TITLE_POOL cfg <> [] ->
  exists rows s', make_rows cfg n s = inr (rows, s').
Proof.
  intros Hv Hf Hp Hc Ha Hve Ho Ht.
  destruct (succ_make_rows_loop cfg (Z.to_nat n) 1 [] Hv Hf Hp Hc Ha Hve Ho Ht s)
    as [rows [s' [E _]]].
  exists rows, s'. exact E.
Qed.

Lemma X14_make_rows_total_witness :
  exists rows s', make_rows default_config 200 sampled_script = inr (rows, s').
Proof.
  apply X14_make_rows_total;
    [exists (u"EB-1A"), (u"O-1A"); simpl; split; [auto | split; [auto | discriminate]]
    | discriminate | simpl; lia | simpl; lia | simpl; lia | simpl; lia
    | discriminate | discriminate].
Defined.

(** X15: the keys of the [vis_counts] dict of [summarize] are the visa
    types of the rows in order of first appearance ([first_occurrences]),
    each once, and nothing else; the count of a visa type is the number of
    rows with it, and the counts add up to the number of rows. *)
Theorem X15_vis_counts_counts rows :
  map fst (vis_counts rows) = first_occurrences (map visa_type rows) /\
  NoDup (map fst (vis_counts rows)) /\
  (forall k, In k (map fst (vis_counts rows)) <-> exists r, In r rows /\ visa_type r = k) /\
  (forall k, dict_get (vis_counts rows) k 0 = Z.of_nat (count_visa rows k)) /\
  dict_sum (vis_counts rows) = Z.of_nat (length rows).
Proof.
  destruct (vis_counts_go rows [] (NoDup_nil _)) as [H1 [H2 [H3 H4]]].
  fold (vis_counts rows) in H1, H2, H3, H4.
  split; [apply (keys_vis_counts_go rows [])|].
  split; [exact H1|]. split; [|split].
  - intros k. rewrite H2. simpl. tauto.
  - intros k. rewrite H3. reflexivity.
  - rewrite H4. reflexivity.
Qed.

(** X16: after [make_rows n_rows], the visa distribution [summarize]
    prints counts only visa types of [VISA_TYPES], and its counts add up to
    [max 0 n_rows]. *)
Theorem X16_make_rows_vis_counts {St} {HR : RandomSource St} {HO : RandomSourceOk St}
        cfg n (s : St) rows s' :
  make_rows cfg n s = inr (rows, s') ->
  incl (map fst (vis_counts rows)) (VISA_TYPES cfg) /\
  dict_sum (vis_counts rows) = Z.max 0 n.
Proof.
  unfold make_rows. intros H. apply make_rows_loop_ok in H as [new [-> [Hl Hnew]]].
  change ([] ++ new) with new.
  destruct (vis_counts_go new [] (NoDup_nil _)) as [_ [H2 [_ H4]]].
  fold (vis_counts new) in H2, H4. split.
  - intros k Hk. apply H2 in Hk as [[]|[row [Hr <-]]].
    apply In_nth_error in Hr as [j Hj]. exact (proj1 (proj2 (Hnew j row Hj))).
  - rewrite H4, Hl. simpl. lia.
Qed.

Lemma X16_make_rows_vis_counts_witness :
  exists rows s', make_rows default_config 3 (Script []) = inr (rows, s') /\
    dict_sum (vis_counts rows) = 3.
Proof.
  destruct (make_rows default_config 3 (Script [])) as [e|[rows s']] eqn:E;
    [vm_compute in E; discriminate|].
  exists rows, s'. split; [reflexivity|].
  exact (proj2 (X16_make_rows_vis_counts default_config 3 (Script []) rows s' E)).
Defined.
